(** * xacro command-line front-end: a shallow embedding

    Embeds [src/xacro/cli.py] (diagnostics, remap extraction, argument
    resolution) and [src/xacro/__init__.py] (the capturing entrypoint), and
    states the specification's properties about them.

    Modelling conventions.
    - A Python [str] is a [string]; a character is a code point below 256.
    - A Python exception is a value of [exn]; a call that may raise returns
      a [result].
    - A dynamically keyed dictionary is a [gmap]; the values the option bag
      can hold are collected in [pyval]. *)

From Stdlib Require Import ZArith Ascii String DecimalString.
From stdpp Require Import base option list sorting gmap strings.

Local Open Scope Z_scope.

(** ** Python values, exceptions and results *)

Module Py.

Inductive exn : Type :=
  | TypeError
  | ValueError
  | AttributeError
  | IndexError
  | ImportError (msg : string)
  | RuntimeError (msg : string)
  | UnsupportedOperation
  | BadOptionError (msg : string)
  | OptionValueError (msg : string)
  | SystemExit (status : Z) (msg : string).

Inductive result (A : Type) : Type :=
  | OK (a : A)
  | Raise (e : exn).
Arguments OK {A} a.
Arguments Raise {A} e.

#[export] Instance result_ret : MRet result := λ A a, OK a.
#[export] Instance result_bind : MBind result := λ A B k r,
  match r with
  | OK a => k a
  | Raise e => Raise e
  end.

Definition raises {A} (r : result A) : bool :=
  match r with
  | OK _ => false
  | Raise _ => true
  end.

Inductive pyval : Type :=
  | PNone
  | PBool (b : bool)
  | PInt (n : Z)
  | PStr (s : string)
  | PDict (d : gmap string string)
  | PExc (e : exn).

(** Truth value of an object in a condition. *)
Definition truthy (v : pyval) : bool :=
  match v with
  | PNone => false
  | PBool b => b
  | PInt n => negb (n =? 0)
  | PStr s => negb (String.eqb s "")
  | PDict d => negb (bool_decide (d = ∅))
  | PExc _ => true
  end.

(** [s[n:]] *)
Fixpoint str_drop (n : nat) (s : string) : string :=
  match n, s with
  | S k, String _ s' => str_drop k s'
  | _, _ => s
  end.

(** [sub in s] on strings. *)
Fixpoint contains (sub s : string) : bool :=
  String.prefix sub s ||
  match s with
  | EmptyString => false
  | String _ s' => contains sub s'
  end.

Definition cons_head (c : ascii) (parts : list string) : list string :=
  match parts with
  | [] => [String c EmptyString]
  | p :: ps => String c p :: ps
  end.

(** [s.split(sep)] for a non-empty [sep]: the leftmost occurrence ends the
    current part, its characters are skipped ([skip] counts those still to
    drop) and the scan resumes after it. *)
Fixpoint split_from (sep : string) (skip : nat) (s : string) : list string :=
  match s with
  | EmptyString => [EmptyString]
  | String c s' =>
      match skip with
      | S k => split_from sep k s'
      | O =>
          if String.prefix sep s
          then EmptyString :: split_from sep (Nat.pred (String.length sep)) s'
          else cons_head c (split_from sep 0 s')
      end
  end.

Definition split (sep s : string) : list string := split_from sep 0 s.

(** [s.count(sep)]: the number of non-overlapping occurrences, left to
    right. *)
Fixpoint count_from (sep : string) (skip : nat) (s : string) : nat :=
  match s with
  | EmptyString => O
  | String c s' =>
      match skip with
      | S k => count_from sep k s'
      | O =>
          if String.prefix sep s
          then S (count_from sep (Nat.pred (String.length sep)) s')
          else count_from sep 0 s'
      end
  end.

Definition count (sep s : string) : nat := count_from sep 0 s.

(** [sep.join(parts)] *)
Definition join (sep : string) (parts : list string) : string :=
  String.concat sep parts.

(** [c.isspace()] on the code points below 256. *)
Definition isspace (c : ascii) : bool :=
  let n := nat_of_ascii c in
  ((9 <=? n)%nat && (n <=? 13)%nat) || ((28 <=? n)%nat && (n <=? 32)%nat)
  || (n =? 133)%nat || (n =? 160)%nat.

Fixpoint lstrip (s : string) : string :=
  match s with
  | EmptyString => EmptyString
  | String c s' => if isspace c then lstrip s' else s
  end.

Fixpoint rstrip (s : string) : string :=
  match s with
  | EmptyString => EmptyString
  | String c s' =>
      let r := rstrip s' in
      if isspace c && String.eqb r "" then EmptyString else String c r
  end.

(** [s.strip()] *)
Definition strip (s : string) : string := rstrip (lstrip s).

(** [format(v, "s")], the conversion behind an f-string field [{v:s}]:
    only a [str] accepts the format specification. *)
Definition format_s (v : pyval) : result string :=
  match v with
  | PStr s => OK s
  | _ => Raise TypeError
  end.

(** [format(n, "d")] *)
Definition format_d (n : Z) : string := NilZero.string_of_int (Z.to_int n).

End Py.

Export Py.

(** ** The flag library ([optparse] of the Python standard library)

    The part of [optparse] that [process_args] drives: option tables, the
    left-to-right scan of the argument vector, and the actions [store],
    [store_const], [store_true], [count] and [help]. The handlers of one
    argument return, with the new values, whether they consumed the
    argument that follows, so that the scan is structural in the vector it
    consumes. *)

Module optparse.

Inductive Action : Type := store | store_const | store_true | count | help.
Inductive OType : Type := t_string | t_int.

Record Option : Type := make_option {
  short_opts : list string;
  long_opts : list string;
  action : Action;
  otype : option OType;
  dest : option string;
  const : pyval
}.

Record OptionParser : Type := make_parser {
  option_list : list Option;
  defaults : gmap string pyval
}.

(** [Option._set_opt_strings]: a two-character option string is a short
    option, a longer one a long option. *)
Definition _set_opt_strings (opts : list string) : list string * list string :=
  (filter (λ o, String.length o = 2%nat) opts,
   filter (λ o, String.length o ≠ 2%nat) opts).

(** [Option.__init__] with [_check_type]: a [store] without a type stores
    strings. *)
Definition new_option (opts : list string) (a : Action) (t : option OType)
    (d : option string) (c : pyval) : Option :=
  let '(shorts, longs) := _set_opt_strings opts in
  let t' := match a, t with
            | store, None => Some t_string
            | _, _ => t
            end in
  make_option shorts longs a t' d c.

Definition add_option (o : Option) (p : OptionParser) : OptionParser :=
  let dflt := match dest o with
              | Some d => match defaults p !! d with
                          | None => <[d := PNone]> (defaults p)
                          | Some _ => defaults p
                          end
              | None => defaults p
              end in
  make_parser (option_list p ++ [o]) dflt.

Definition set_defaults (kw : list (string * pyval)) (p : OptionParser)
    : OptionParser :=
  make_parser (option_list p)
    (foldl (λ m kv, <[kv.1 := kv.2]> m) (defaults p) kw).

(** [OptionParser.__init__]: the option list starts with the help option. *)
Definition new_parser : OptionParser :=
  add_option (new_option ["-h"; "--help"] help None None PNone)
    (make_parser [] ∅).

Definition takes_value (o : Option) : bool :=
  match otype o with
  | Some _ => true
  | None => false
  end.

Definition _short_opt (p : OptionParser) (opt : string) : option Option :=
  find (λ o, bool_decide (opt ∈ short_opts o)) (option_list p).

Definition _long_opt (p : OptionParser) (opt : string) : option Option :=
  find (λ o, bool_decide (opt ∈ long_opts o)) (option_list p).

Definition long_opt_names (p : OptionParser) : list string :=
  concat (map long_opts (option_list p)).

Definition string_le (a b : string) : Prop := String.leb a b = true.
#[export] Instance string_le_dec a b : Decision (string_le a b).
Proof. unfold string_le. apply _. Defined.

(** [_match_abbrev]: an exact name, or the only name it is a prefix of. *)
Definition _match_abbrev (s : string) (words : list string) : result string :=
  if bool_decide (s ∈ words) then OK s
  else
    match filter (λ w, String.prefix s w = true) words with
    | [w] => OK w
    | [] => Raise (BadOptionError ("no such option: " +:+ s))
    | ws =>
        Raise (BadOptionError
                 ("ambiguous option: " +:+ s +:+ " ("
                  +:+ join ", " (merge_sort string_le ws) +:+ "?)"))
    end.

(** [arg.split("=", 1)] for an [arg] that contains ["="]. *)
Fixpoint split_eq (s : string) : string * string :=
  match s with
  | EmptyString => (EmptyString, EmptyString)
  | String c s' =>
      if Ascii.eqb c "="%char then (EmptyString, s')
      else let '(a, b) := split_eq s' in (String c a, b)
  end.

(** [Values.ensure_value(attr, 0) + 1], the update of the [count] action. *)
Definition count_up (v : option pyval) : result pyval :=
  match v with
  | None | Some PNone => OK (PInt 1)
  | Some (PInt n) => OK (PInt (n + 1))
  | Some (PBool b) => OK (PInt ((if b then 1 else 0) + 1))
  | Some _ => Raise TypeError
  end.

Section Parser.

(** The parser's [error] method (overridden by subclasses): the exception
    with which it leaves. *)
Variable error : string → exn.
(** [optparse._parse_int]: [None] where the conversion raises
    [ValueError]. *)
Variable py_int : string → option Z.
(** [repr] of a [str]. *)
Variable py_repr : string → string.

Definition check_value (o : Option) (opt value : string) : result pyval :=
  match otype o with
  | Some t_int =>
      match py_int value with
      | Some n => OK (PInt n)
      | None =>
          Raise (OptionValueError
                   ("option " +:+ opt +:+ ": invalid integer value: "
                    +:+ py_repr value))
      end
  | _ => OK (PStr value)
  end.

Definition convert_value (o : Option) (opt : string) (value : option string)
    : result pyval :=
  match value with
  | Some v => check_value o opt v
  | None => OK PNone
  end.

Definition setattr (values : gmap string pyval) (d : option string)
    (v : pyval) : gmap string pyval :=
  match d with
  | Some k => <[k := v]> values
  | None => values
  end.

Definition take_action (o : Option) (value : pyval)
    (values : gmap string pyval) : result (gmap string pyval) :=
  match action o with
  | store => OK (setattr values (dest o) value)
  | store_const => OK (setattr values (dest o) (const o))
  | store_true => OK (setattr values (dest o) (PBool true))
  | count =>
      n ← count_up (d ← dest o; values !! d);
      OK (setattr values (dest o) n)
  | help => Raise (SystemExit 0 "")
  end.

(** [Option.process] *)
Definition process (o : Option) (opt : string) (value : option string)
    (values : gmap string pyval) : result (gmap string pyval) :=
  v ← convert_value o opt value;
  take_action o v values.

Definition requires_argument (opt : string) : string :=
  opt +:+ " option requires 1 argument".

(** [_process_long_opt] on the popped [arg]; [rest] is what remains of
    [rargs]. The boolean tells whether the value was taken from [rest]. *)
Definition _process_long_opt (p : OptionParser) (arg : string)
    (rest : list string) (values : gmap string pyval)
    : result (gmap string pyval * bool) :=
  let '(opt, explicit) :=
    if contains "=" arg
    then let '(o, v) := split_eq arg in (o, Some v)
    else (arg, None) in
  opt ← _match_abbrev opt (long_opt_names p);
  match _long_opt p opt with
  | None => Raise (BadOptionError ("no such option: " +:+ opt))
  | Some o =>
      if takes_value o then
        match explicit, rest with
        | Some v, _ => values' ← process o opt (Some v) values; OK (values', false)
        | None, v :: _ => values' ← process o opt (Some v) values; OK (values', true)
        | None, [] => Raise (error (requires_argument opt))
        end
      else
        match explicit with
        | Some _ => Raise (error (opt +:+ " option does not take a value"))
        | None => values' ← process o opt None values; OK (values', false)
        end
  end.

(** [_process_short_opts] on the characters after the dash of the popped
    cluster. *)
Fixpoint _process_short_opts (p : OptionParser) (chars : string)
    (rest : list string) (values : gmap string pyval)
    : result (gmap string pyval * bool) :=
  match chars with
  | EmptyString => OK (values, false)
  | String ch tail =>
      let opt := String "-" (String ch EmptyString) in
      match _short_opt p opt with
      | None => Raise (BadOptionError ("no such option: " +:+ opt))
      | Some o =>
          if takes_value o then
            match tail, rest with
            | String _ _, _ =>
                values' ← process o opt (Some tail) values; OK (values', false)
            | EmptyString, v :: _ =>
                values' ← process o opt (Some v) values; OK (values', true)
            | EmptyString, [] => Raise (error (requires_argument opt))
            end
          else
            values' ← process o opt None values;
            _process_short_opts p tail rest values'
      end
  end.

(** [_process_args]: the scan of [rargs]; positional arguments are
    collected in [largs] (interspersed arguments are allowed), and ["--"]
    ends the scan. Returns [(largs, rargs, values)]. *)
Fixpoint _process_args (p : OptionParser) (largs rargs : list string)
    (values : gmap string pyval)
    : result (list string * list string * gmap string pyval) :=
  match rargs with
  | [] => OK (largs, [], values)
  | arg :: rest =>
      if String.eqb arg "--" then OK (largs, rest, values)
      else if String.prefix "--" arg then
        '(values', took) ← _process_long_opt p arg rest values;
        match took, rest with
        | true, _ :: rest' => _process_args p largs rest' values'
        | _, _ => _process_args p largs rest values'
        end
      else if String.prefix "-" arg && (1 <? String.length arg)%nat then
        '(values', took) ← _process_short_opts p (str_drop 1 arg) rest values;
        match took, rest with
        | true, _ :: rest' => _process_args p largs rest' values'
        | _, _ => _process_args p largs rest values'
        end
      else _process_args p (largs ++ [arg]) rest values
  end.

(** [parse_args]: option errors raised during the scan leave through the
    parser's [error] method. *)
Definition parse_args (p : OptionParser) (args : list string)
    : result (gmap string pyval * list string) :=
  match _process_args p [] args (defaults p) with
  | OK (largs, rargs, values) => OK (values, largs ++ rargs)
  | Raise (BadOptionError msg) => Raise (error msg)
  | Raise (OptionValueError msg) => Raise (error msg)
  | Raise e => Raise e
  end.

End Parser.

(** [OptionParser.error]: print the usage and [msg] on the standard error
    stream, then exit with status 2. *)
Definition error (msg : string) : exn := SystemExit 2 msg.

End optparse.

(** ** [src/xacro/cli.py] *)

Module cli.

Definition _ansi : gmap string Z := <["red" := 91]> (<["yellow" := 93]> ∅).
Definition REMAP : string := ":=".

(** What the diagnostics look at in a text stream: [isatty = None] is a
    stream without an [isatty] attribute, [Some b] one whose [isatty()]
    answers [b]. *)
Record stream : Type := make_stream { isatty : option bool }.

(** [_ansi.get(color, None)] *)
Definition _ansi_get (color : pyval) : result (option Z) :=
  match color with
  | PStr k => OK (_ansi !! k)
  | PDict _ => Raise TypeError
  | _ => OK None
  end.

Definition ESC : string := String "027" EmptyString.

Definition colorize (msg color : pyval) (file : stream) (alt_text : pyval)
    : result string :=
  color ← _ansi_get color;
  match color, isatty file with
  | Some c, Some true =>
      if negb (c =? 0) then
        m ← format_s msg;
        OK (ESC +:+ "[" +:+ format_d c +:+ "m" +:+ m +:+ ESC +:+ "[0m")
      else
        a ← format_s alt_text; m ← format_s msg; OK (a +:+ m)
  | _, _ => a ← format_s alt_text; m ← format_s msg; OK (a +:+ m)
  end.

(** The keyword arguments the diagnostics read; [None] is an absent key. *)
Record kwargs : Type := make_kwargs {
  kw_file : option stream;
  kw_alt_text : option pyval;
  kw_color : option pyval
}.

Definition no_kwargs : kwargs := make_kwargs None None None.

(** [defaults.update(kwargs)] *)
Definition update (defaults kw : kwargs) : kwargs :=
  make_kwargs
    (match kw_file kw with Some f => Some f | None => kw_file defaults end)
    (match kw_alt_text kw with Some a => Some a | None => kw_alt_text defaults end)
    (match kw_color kw with Some c => Some c | None => kw_color defaults end).

(** [print(first, *args, file=file)]: the text written to [file]. *)
Definition print (first : string) (args : list string) : string :=
  join " " (first :: args) +:+ String "010" EmptyString.

Section Diagnostics.

(** The process's standard error stream. *)
Variable sys_stderr : stream.

(** [message] returns the text it prints on the target stream. *)
Definition message (msg : pyval) (args : list string) (kw : kwargs)
    : result string :=
  let file := default sys_stderr (kw_file kw) in
  let alt_text := default PNone (kw_alt_text kw) in
  let color := default PNone (kw_color kw) in
  text ← colorize msg color file alt_text;
  OK (print text args).

Definition warning (msg : pyval) (args : list string) (kw : kwargs)
    : result string :=
  let defaults :=
    make_kwargs (Some sys_stderr) (Some (PStr "warning: ")) (Some (PStr "yellow")) in
  message msg args (update defaults kw).

Definition error (msg : pyval) (args : list string) (kw : kwargs)
    : result string :=
  let defaults :=
    make_kwargs (Some sys_stderr) (Some (PStr "error: ")) (Some (PStr "red")) in
  message msg args (update defaults kw).

(** [ColoredOptionParser.error]: the exception with which it leaves. *)
Definition ColoredOptionParser_error (message : string) : exn :=
  match colorize (PStr message) (PStr "red") sys_stderr (PStr "") with
  | OK msg => optparse.error msg
  | Raise e => e
  end.

End Diagnostics.

(** [src, dst = parts]: unpacking a list into two names. *)
Definition unpack2 (parts : list string) : result (string * string) :=
  match parts with
  | [a; b] => OK (a, b)
  | _ => Raise ValueError
  end.

Definition is_parameter_assignment (src : string) : bool :=
  match src with
  | String c0 (String c1 _) => Ascii.eqb c0 "_" && negb (Ascii.eqb c1 "_")
  | _ => false
  end.

(** The body of the [try] in [load_mappings], for one argument. *)
Definition load_mappings_try (mappings : gmap string string) (arg : string)
    : result (gmap string string) :=
  '(src, dst) ← unpack2 (map strip (split REMAP arg));
  if truthy (PStr src) && truthy (PStr dst) then
    if is_parameter_assignment src then OK mappings
    else OK (<[src := dst]> mappings)
  else OK mappings.

Definition invalid_remapping (arg : string) : exn :=
  RuntimeError ("Invalid remapping argument '" +:+ arg +:+ "'"
                +:+ String "010" EmptyString).

(** One iteration of the loop of [load_mappings]. *)
Definition load_mappings_step (mappings : gmap string string) (arg : string)
    : result (gmap string string) :=
  if contains REMAP arg then
    match load_mappings_try mappings arg with
    | OK m => OK m
    | Raise _ => Raise (invalid_remapping arg)
    end
  else OK mappings.

Fixpoint load_mappings_loop (mappings : gmap string string)
    (argv : list string) : result (gmap string string) :=
  match argv with
  | [] => OK mappings
  | arg :: argv' =>
      m ← load_mappings_step mappings arg;
      load_mappings_loop m argv'
  end.

Definition load_mappings (argv : list string) : result (gmap string string) :=
  load_mappings_loop ∅ argv.

(** [[a for a in argv if REMAP not in a]] *)
Definition filter_remap (argv : list string) : list string :=
  filter (λ a, contains REMAP a = false) argv.

Section ProcessArgs.

Variable sys_stderr : stream.
Variable py_int : string → option Z.
Variable py_repr : string → string.

(** The parser [process_args] builds, defaults included. *)
Definition parser : optparse.OptionParser :=
  optparse.set_defaults [("just_deps", PBool false); ("verbosity", PInt 1)]
  (optparse.add_option
     (optparse.new_option ["--verbosity"] optparse.store (Some optparse.t_int)
        (Some "verbosity") PNone)
  (optparse.add_option
     (optparse.new_option ["-v"] optparse.count None (Some "verbosity") PNone)
  (optparse.add_option
     (optparse.new_option ["-q"] optparse.store_const None (Some "verbosity")
        (PInt 0))
  (optparse.add_option
     (optparse.new_option ["--inorder"; "-i"] optparse.store_true None
        (Some "in_order") PNone)
  (optparse.add_option
     (optparse.new_option ["--deps"] optparse.store_true None
        (Some "just_deps") PNone)
  (optparse.add_option
     (optparse.new_option ["-o"] optparse.store None (Some "output") PNone)
     optparse.new_parser)))))).

(** The substitution arguments: the mappings and the vector handed to flag
    parsing. *)
Definition substitution_args (argv : list string)
    : result (gmap string string * list string) :=
  match load_mappings argv with
  | OK mappings => OK (mappings, filter_remap argv)
  | Raise (ImportError msg) =>
      _ ← warning sys_stderr (PExc (ImportError msg)) [] no_kwargs;
      OK (∅, argv)
  | Raise e => Raise e
  end.

Definition in_order_notice : string :=
  "xacro: in-order processing became default in ROS Melodic. You can drop the option.".

Definition getattr (options : gmap string pyval) (name : string)
    : result pyval :=
  match options !! name with
  | Some v => OK v
  | None => Raise AttributeError
  end.

(** The check of the positional arguments and the selection of
    [pos_args[0]]. *)
Definition input_argument (pos_args : list string) (require_input : bool)
    : result pyval :=
  if bool_decide (length pos_args ≠ 1%nat) then
    if require_input then
      Raise (ColoredOptionParser_error sys_stderr
               "expected exactly one input file as argument")
    else OK PNone
  else
    match pos_args with
    | p :: _ => OK (PStr p)
    | [] => Raise IndexError
    end.

Definition process_args (argv : list string) (require_input : bool)
    : result (gmap string pyval * pyval) :=
  '(mappings, filtered_args) ← substitution_args argv;
  '(options, pos_args) ←
    optparse.parse_args (ColoredOptionParser_error sys_stderr) py_int py_repr
      parser filtered_args;
  in_order ← getattr options "in_order";
  _ ← (if truthy in_order
       then message sys_stderr (PStr in_order_notice) [] no_kwargs
       else OK EmptyString);
  let options := <["in_order" := PBool true]> options in
  input ← input_argument pos_args require_input;
  let options := <["mappings" := PDict mappings]> options in
  OK (options, input).

End ProcessArgs.

(** *** [IndentedHelpFormatterWithNL] *)

Section HelpFormatter.

(** The keyword arguments handed on to [textwrap.wrap]. *)
Variable wrap_kwargs : Type.

(** [textwrap.wrap] as it was when the class was created,
    [_original_wrap]: the lines of one paragraph, or the exception it
    raises. *)
Variable _original_wrap : string → Z → wrap_kwargs → result (list string).

Definition NL : string := String "010" EmptyString.

(** The loop of [wrap_with_newlines]: [result.extend(...)] for each
    paragraph. *)
Fixpoint wrap_with_newlines_loop (width : Z) (kw : wrap_kwargs)
    (result : list string) (paragraphs : list string)
    : Py.result (list string) :=
  match paragraphs with
  | [] => OK result
  | paragraph :: rest =>
      lines ← _original_wrap paragraph width kw;
      wrap_with_newlines_loop width kw (result ++ lines) rest
  end.

Definition wrap_with_newlines (text : string) (width : Z) (kw : wrap_kwargs)
    : Py.result (list string) :=
  wrap_with_newlines_loop width kw [] (split NL text).

(** The base class's [format_option], which wraps the help text with the
    function bound to [textwrap.wrap] at the time of the call. *)
Variable IndentedHelpFormatter_format_option :
  (string → Z → wrap_kwargs → Py.result (list string)) →
  optparse.Option → Py.result string.

(** [format_option], run against the binding of [textwrap.wrap]: the
    result and the binding it leaves. *)
Definition format_option (option : optparse.Option)
    (textwrap_wrap : string → Z → wrap_kwargs → Py.result (list string))
    : Py.result string * (string → Z → wrap_kwargs → Py.result (list string)) :=
  let old := textwrap_wrap in
  let textwrap_wrap := wrap_with_newlines in
  match IndentedHelpFormatter_format_option textwrap_wrap option with
  | OK result => (OK result, old)
  | Raise e => (Raise e, textwrap_wrap)
  end.

End HelpFormatter.

End cli.

(** ** [src/xacro/__init__.py]

    The entrypoints run against a [world]: the binding of [sys.stdout] and
    the file objects it can be bound to. A computation returns its result
    or exception together with the world it leaves behind. *)

Module xacro.

Inductive fileobj : Type :=
  | TextStream (written : string)
  | StringIO (buffer : string) (pos : nat).

Record world : Type := make_world {
  sys_stdout : nat;
  heap : gmap nat fileobj
}.

Definition M (A : Type) : Type := world → result A * world.

#[export] Instance M_ret : MRet M := λ A a w, (OK a, w).
#[export] Instance M_bind : MBind M := λ A B k m w,
  match m w with
  | (OK a, w') => k a w'
  | (Raise e, w') => (Raise e, w')
  end.

Definition raise {A} (e : exn) : M A := λ w, (Raise e, w).

(** The buffer of a [StringIO] after writing [text] at position [pos]; a
    position past the end is reached by padding with NUL. *)
Fixpoint overwrite (buf : string) (pos : nat) (text : string) : string :=
  match pos with
  | O => text +:+ str_drop (String.length text) buf
  | S k =>
      match buf with
      | String c b => String c (overwrite b k text)
      | EmptyString => String "000" (overwrite EmptyString k text)
      end
  end.

Definition get_stdout : M nat := λ w, (OK (sys_stdout w), w).

Definition set_stdout (f : nat) : M unit :=
  λ w, (OK (), make_world f (heap w)).

(** [StringIO()]: a new, empty in-memory text stream. *)
Definition new_StringIO : M nat := λ w,
  let f := fresh ({[sys_stdout w]} ∪ dom (heap w)) in
  (OK f, make_world (sys_stdout w) (<[f := StringIO EmptyString 0]> (heap w))).

Definition write (f : nat) (text : string) : M unit := λ w,
  match heap w !! f with
  | Some (StringIO buf pos) =>
      (OK (), make_world (sys_stdout w)
                (<[f := StringIO (overwrite buf pos text)
                          (pos + String.length text)]> (heap w)))
  | Some (TextStream t) =>
      (OK (), make_world (sys_stdout w) (<[f := TextStream (t +:+ text)]> (heap w)))
  | None => (Raise ValueError, w)
  end.

Definition seek (f : nat) (offset : nat) : M unit := λ w,
  match heap w !! f with
  | Some (StringIO buf _) =>
      (OK (), make_world (sys_stdout w) (<[f := StringIO buf offset]> (heap w)))
  | Some (TextStream _) => (Raise UnsupportedOperation, w)
  | None => (Raise ValueError, w)
  end.

Definition read (f : nat) : M string := λ w,
  match heap w !! f with
  | Some (StringIO buf pos) =>
      (OK (str_drop pos buf),
       make_world (sys_stdout w)
         (<[f := StringIO buf (Nat.max pos (String.length buf))]> (heap w)))
  | Some (TextStream _) => (Raise UnsupportedOperation, w)
  | None => (Raise ValueError, w)
  end.

Section Entrypoints.

(** The Processing Engine, an external collaborator: for an input
    identifier and an options dictionary, the chunks of text it writes to
    the standard output, in order, and the exception it ends with, if
    any. *)
Variable engine : pyval → gmap string pyval → list string * option exn.

(** Each chunk goes to the stream [sys.stdout] is bound to when it is
    written. *)
Fixpoint write_all (chunks : list string) : M unit :=
  match chunks with
  | [] => mret ()
  | c :: cs => out ← get_stdout; _ ← write out c; write_all cs
  end.

(** Modelled from the spec: [process_file.process], the Processing Engine,
    is not among the sources. The spec treats it as an external
    collaborator that, called with [output=None], writes to the current
    standard output; its effect on the world is the writes of [engine],
    followed by its exception, if any. *)
Definition process_file_process (input_file_name : pyval)
    (opts : gmap string pyval) : M unit :=
  let '(chunks, e) := engine input_file_name opts in
  _ ← write_all chunks;
  match e with
  | Some x => raise x
  | None => mret ()
  end.

(** [dict(output=None, just_deps=..., xacro_ns=..., verbosity=...,
    mappings=...)] *)
Definition process_opts (just_deps xacro_ns : bool) (verbosity : Z)
    (mappings : gmap string string) : gmap string pyval :=
  <["output" := PNone]> (<["just_deps" := PBool just_deps]>
  (<["xacro_ns" := PBool xacro_ns]> (<["verbosity" := PInt verbosity]>
  (<["mappings" := PDict mappings]> ∅)))).

(** The Python entrypoint. *)
Definition process (input_file_name : string) (just_deps xacro_ns : bool)
    (verbosity : Z) (mappings : gmap string string) : M string :=
  old ← get_stdout;
  sink ← new_StringIO;
  _ ← set_stdout sink;
  _ ← process_file_process (PStr input_file_name)
        (process_opts just_deps xacro_ns verbosity mappings);
  out ← get_stdout;
  _ ← seek out 0;
  out ← get_stdout;
  result ← read out;
  _ ← set_stdout old;
  mret result.

Variable sys_stderr : cli.stream.
Variable py_int : string → option Z.
Variable py_repr : string → string.


End Entrypoints.

End xacro.

(** ** Vocabulary of the statements *)

(** A token the extractor rejects: it holds the delimiter and does not
    split into two parts. *)
Definition rejected (arg : string) : bool :=
  contains cli.REMAP arg && negb (length (split cli.REMAP arg) =? 2)%nat.

(** The mapping after a token that splits into [s] and [d]. *)
Definition entry_of (mappings : gmap string string) (s d : string)
    : gmap string string :=
  if negb (String.eqb (strip s) "") && negb (String.eqb (strip d) "")
  then if cli.is_parameter_assignment (strip s) then mappings
       else <[strip s := strip d]> mappings
  else mappings.

(** An argument the flag parser takes as positional: not a dash followed
    by more characters. *)
Definition positional (arg : string) : bool :=
  negb (String.prefix "-" arg && (1 <? String.length arg)%nat).

(** The options dictionary [process_args] returns, spelled out. *)
Definition options_dict (output : pyval) (just_deps : bool) (verbosity : Z)
    (mappings : gmap string string) : gmap string pyval :=
  <["output" := output]> (<["just_deps" := PBool just_deps]>
  (<["in_order" := PBool true]> (<["verbosity" := PInt verbosity]>
  (<["mappings" := PDict mappings]> ∅)))).

(** The verbosity flags of one invocation, in the order they are given;
    [Level tok n] is [--verbosity tok] for a token [tok] that converts to
    [n]. *)
Inductive vflag : Type :=
  | Quiet
  | Verbose
  | Level (tok : string) (n : Z).

Definition vflag_tokens (f : vflag) : list string :=
  match f with
  | Quiet => ["-q"]
  | Verbose => ["-v"]
  | Level tok _ => ["--verbosity"; tok]
  end.

(** What a flag does to the verbosity held so far. *)
Definition vflag_apply (v : Z) (f : vflag) : Z :=
  match f with
  | Quiet => 0
  | Verbose => v + 1
  | Level _ n => n
  end.

(** A verbosity flag as the invocation can carry it: the level token
    converts to the level and is not itself a remap token. *)
Definition vflag_ok (py_int : string → option Z) (f : vflag) : Prop :=
  match f with
  | Level tok n => py_int tok = Some n ∧ contains cli.REMAP tok = false
  | _ => True
  end.

(** Instances for the examples: a redirected standard error stream, a
    conversion that reads the digits 0 to 4, a [repr] for strings without
    quotes, an engine that writes two chunks, and a world whose standard
    output is a terminal. *)
Definition plain_stderr : cli.stream := cli.make_stream (Some false).
Definition no_int : string → option Z := λ _, None.
Definition digit_int (s : string) : option Z :=
  if String.eqb s "0" then Some 0
  else if String.eqb s "1" then Some 1
  else if String.eqb s "2" then Some 2
  else if String.eqb s "3" then Some 3
  else if String.eqb s "4" then Some 4
  else None.
Definition plain_repr : string → string := λ s, "'" +:+ s +:+ "'".
Definition two_chunk_engine (input : pyval) (opts : gmap string pyval)
    : list string * option exn :=
  (["<robot>"; "</robot>"], None).
Definition terminal_world : xacro.world :=
  xacro.make_world 0 (<[0%nat := xacro.TextStream "$ "]> ∅).

(** The attributes the flag parser keeps, and what each of them holds. *)
Definition option_keys : gset string :=
  {["output"; "just_deps"; "in_order"; "verbosity"]}.

Definition values_typed (values : gmap string pyval) : Prop :=
  dom values = option_keys
  ∧ (∃ n, values !! "verbosity" = Some (PInt n))
  ∧ (∃ b, values !! "just_deps" = Some (PBool b))
  ∧ (values !! "in_order" = Some PNone
     ∨ values !! "in_order" = Some (PBool true))
  ∧ (values !! "output" = Some PNone
     ∨ ∃ f, values !! "output" = Some (PStr f)).

(** The ways the flag parser leaves the process: after the help text,
    with status 0, or through its [error] method, with status 2. *)
Definition parser_exit (e : exn) : Prop :=
  e = SystemExit 0 "" ∨ ∃ msg, e = SystemExit 2 msg.

(** The exceptions of the scan of the argument vector. *)
Definition scan_exn (e : exn) : Prop :=
  (∃ msg, e = BadOptionError msg) ∨ (∃ msg, e = OptionValueError msg)
  ∨ parser_exit e.

(** What a step of the scan gives: typed values, or one of the scan's
    exceptions. *)
Definition process_post (r : result (gmap string pyval)) : Prop :=
  match r with
  | OK values' => values_typed values'
  | Raise e => scan_exn e
  end.

Definition handler_post (rest : list string)
    (r : result (gmap string pyval * bool)) : Prop :=
  match r with
  | OK (values', took) => values_typed values' ∧ (took = true → rest ≠ [])
  | Raise e => scan_exn e
  end.

(** What the scan gives: typed values, and positional arguments that are
    arguments of the vector, after those collected before. *)
Definition scan_post (largs rargs : list string)
    (r : result (list string * list string * gmap string pyval)) : Prop :=
  match r with
  | OK (largs', rargs', values') =>
      values_typed values' ∧ ∃ l, largs' ++ rargs' = largs ++ l ∧ l ⊆ rargs
  | Raise e => scan_exn e
  end.

(** A message as the diagnostics decorate it for a stream: wrapped in the
    colour escapes on an interactive stream, prefixed with the alt text on
    any other. *)
Definition decorated (code alt msg : string) (file : cli.stream) : string :=
  if bool_decide (cli.isatty file = Some true)
  then cli.ESC +:+ "[" +:+ code +:+ "m" +:+ msg +:+ cli.ESC +:+ "[0m"
  else alt +:+ msg.

(** Further instances for the examples: a wrap that gives one line per
    paragraph and refuses a width that is not positive, and an engine that
    fails after one chunk. *)
Definition failing_engine (input : pyval) (opts : gmap string pyval)
    : list string * option exn :=
  (["<robot>"], Some (RuntimeError "no such file")).
Definition line_wrap (paragraph : string) (width : Z) (kw : unit)
    : result (list string) :=
  if (width <=? 0)%Z then Raise ValueError else OK [paragraph].

(** * Properties *)

(** ** Strings: [split], [count], [in] and [join] *)

Section StringFacts.

Implicit Types (s sep : string) (k : nat).

Lemma prefix_nil_false sep : sep ≠ EmptyString → String.prefix sep EmptyString = false.
Proof. by destruct sep. Qed.

Lemma prefix_app_drop sep s :
  String.prefix sep s = true → s = sep +:+ str_drop (String.length sep) s.
Proof.
  revert s. induction sep as [|a sep IH]; intros s H.
  - by destruct s.
  - destruct s as [|c s]; [done|]. simpl in H.
    destruct (ascii_dec a c) as [->|]; [|done].
    change (String c s = String c (sep +:+ str_drop (String.length sep) s)).
    f_equal. by apply IH.
Qed.

Lemma split_from_cons sep c s :
  split_from sep 0 (String c s) =
  if String.prefix sep (String c s)
  then EmptyString :: split_from sep (Nat.pred (String.length sep)) s
  else cons_head c (split_from sep 0 s).
Proof. done. Qed.

Lemma count_from_cons sep c s :
  count_from sep 0 (String c s) =
  if String.prefix sep (String c s)
  then S (count_from sep (Nat.pred (String.length sep)) s)
  else count_from sep 0 s.
Proof. done. Qed.

Lemma split_from_length sep k s :
  length (split_from sep k s) = S (count_from sep k s).
Proof.
  revert k. induction s as [|c s IH]; intros k; [done|].
  destruct k as [|k]; [|apply IH].
  rewrite split_from_cons, count_from_cons.
  destruct (String.prefix sep (String c s)); [simpl; by rewrite IH|].
  specialize (IH 0%nat). destruct (split_from sep 0 s); [done|]. simpl in *. lia.
Qed.

Lemma split_length sep s : length (split sep s) = S (count sep s).
Proof. apply split_from_length. Qed.

Lemma join_cons_head sep c parts :
  parts ≠ [] → join sep (cons_head c parts) = String c (join sep parts).
Proof. destruct parts as [|p [|q ps]]; done. Qed.

Lemma join_cons sep p parts :
  parts ≠ [] → join sep (p :: parts) = p +:+ sep +:+ join sep parts.
Proof. by destruct parts. Qed.

Lemma split_from_nonempty sep k s : split_from sep k s ≠ [].
Proof.
  intros H. pose proof (split_from_length sep k s) as L. by rewrite H in L.
Qed.

Lemma join_split_from sep k s :
  sep ≠ EmptyString → join sep (split_from sep k s) = str_drop k s.
Proof.
  intros Hsep. revert k. induction s as [|c s IH]; intros k.
  - by destruct k.
  - destruct k as [|k]; [|apply IH].
    rewrite split_from_cons. change (str_drop 0 (String c s)) with (String c s).
    destruct (String.prefix sep (String c s)) eqn:Hp.
    + rewrite join_cons by apply split_from_nonempty. rewrite IH.
      apply prefix_app_drop in Hp. rewrite Hp at 1.
      by destruct sep.
    + rewrite join_cons_head by apply split_from_nonempty. by rewrite IH.
Qed.

Lemma join_split sep s : sep ≠ EmptyString → join sep (split sep s) = s.
Proof. intros H. by apply (join_split_from sep 0 s). Qed.

Lemma count_from_contains sep k s :
  sep ≠ EmptyString →
  contains sep (str_drop k s) = bool_decide (1 ≤ count_from sep k s)%nat.
Proof.
  intros Hsep. revert k. induction s as [|c s IH]; intros k.
  - destruct k; cbn [str_drop contains count_from];
      by rewrite prefix_nil_false.
  - destruct k as [|k]; [|apply IH].
    change (str_drop 0 (String c s)) with (String c s).
    change (contains sep (String c s))
      with (String.prefix sep (String c s) || contains sep s).
    rewrite count_from_cons. destruct (String.prefix sep (String c s)); [done|].
    apply (IH 0%nat).
Qed.

Lemma contains_count sep s :
  sep ≠ EmptyString → contains sep s = bool_decide (1 ≤ count sep s)%nat.
Proof. intros H. by apply (count_from_contains sep 0 s). Qed.

(** The delimiter [":="] cannot overlap itself, so no part of a split
    token contains it. *)
Lemma prefix_empty s : String.prefix EmptyString s = true.
Proof. by destruct s. Qed.

Lemma prefix_remap_cons c d s :
  String.prefix cli.REMAP (String c (String d s)) =
  bool_decide (c = ":"%char) && bool_decide (d = "="%char).
Proof.
  cbn [String.prefix cli.REMAP]. rewrite prefix_empty.
  destruct (ascii_dec ":" c) as [<-|]; destruct (ascii_dec "=" d) as [<-|];
    repeat case_bool_decide; simpl; congruence.
Qed.

Lemma prefix_remap_single c : String.prefix cli.REMAP (String c EmptyString) = false.
Proof. cbn [String.prefix cli.REMAP]. by destruct (ascii_dec ":" c). Qed.

Lemma split_from_no_remap k s :
  Forall (λ p, contains cli.REMAP p = false) (split_from cli.REMAP k s).
Proof.
  revert k. induction s as [|c s IH]; intros k; [by repeat constructor|].
  destruct k as [|k]; [|apply IH]. rewrite split_from_cons.
  destruct (String.prefix cli.REMAP (String c s)) eqn:Hp.
  { constructor; [done|apply IH]. }
  assert (join cli.REMAP (split_from cli.REMAP 0 s) = s) as J
    by (by apply (join_split_from cli.REMAP 0 s)).
  specialize (IH 0%nat).
  destruct (split_from cli.REMAP 0 s) as [|p ps] eqn:E;
    [by apply split_from_nonempty in E|].
  apply Forall_cons in IH as [Hp0 Hps]. apply Forall_cons. split; [|done].
  change (String.prefix cli.REMAP (String c p) || contains cli.REMAP p = false).
  rewrite Hp0, orb_false_r.
  destruct p as [|d p]; [apply prefix_remap_single|].
  rewrite prefix_remap_cons.
  assert (∃ r, s = String d r) as [r ->].
  { rewrite <- J. destruct ps; cbn; eauto. }
  by rewrite prefix_remap_cons in Hp.
Qed.

End StringFacts.

(** ** The Remap Extractor *)

Section RemapExtractor.

Import cli.

Implicit Types (arg src dst : string) (argv : list string)
  (mappings : gmap string string).

Lemma REMAP_nonempty : REMAP ≠ EmptyString.
Proof. done. Qed.

Lemma unpack2_length (parts : list string) :
  length parts ≠ 2%nat → unpack2 parts = Raise ValueError.
Proof. by destruct parts as [|a [|b [|c l]]]. Qed.

Lemma split_two_contains arg s d :
  split REMAP arg = [s; d] → contains REMAP arg = true.
Proof.
  intros H. rewrite contains_count by done.
  pose proof (split_length REMAP arg) as L. rewrite H in L.
  apply bool_decide_eq_true. simpl in L. lia.
Qed.

Lemma step_without_delimiter mappings arg :
  contains REMAP arg = false → load_mappings_step mappings arg = OK mappings.
Proof. intros H. unfold load_mappings_step. by rewrite H. Qed.

Lemma step_pair mappings arg s d :
  split REMAP arg = [s; d] →
  load_mappings_step mappings arg = OK (entry_of mappings s d).
Proof.
  intros H. unfold load_mappings_step, load_mappings_try, entry_of.
  rewrite (split_two_contains _ _ _ H), H. cbn.
  destruct (strip s =? "")%string, (strip d =? "")%string; cbn; try done.
  by destruct (is_parameter_assignment (strip s)).
Qed.

Lemma step_rejected mappings arg :
  rejected arg = true →
  load_mappings_step mappings arg = Raise (invalid_remapping arg).
Proof.
  unfold rejected. intros [Hc Hl]%andb_true_iff.
  apply negb_true_iff, Nat.eqb_neq in Hl.
  unfold load_mappings_step, load_mappings_try. rewrite Hc.
  rewrite unpack2_length; [done|]. by rewrite length_map.
Qed.

Lemma step_accepted mappings arg :
  rejected arg = false → ∃ m, load_mappings_step mappings arg = OK m.
Proof.
  unfold rejected. intros H.
  destruct (contains REMAP arg) eqn:Hc.
  - apply negb_false_iff, Nat.eqb_eq in H.
    destruct (split REMAP arg) as [|s [|d [|x l]]] eqn:Hs; try done.
    eexists. by apply step_pair.
  - eexists. by apply step_without_delimiter.
Qed.

Lemma loop_first_rejected mappings argv b :
  find rejected argv = Some b →
  load_mappings_loop mappings argv = Raise (invalid_remapping b).
Proof.
  revert mappings. induction argv as [|arg argv IH]; intros mappings; [done|].
  cbn [find load_mappings_loop]. destruct (rejected arg) eqn:Hr.
  - intros [= ->]. by rewrite step_rejected.
  - intros Hf. destruct (step_accepted mappings arg Hr) as [m ->]. by apply IH.
Qed.

Lemma loop_none_rejected mappings argv :
  find rejected argv = None → ∃ m, load_mappings_loop mappings argv = OK m.
Proof.
  revert mappings. induction argv as [|arg argv IH]; intros mappings; [by eexists|].
  cbn [find load_mappings_loop]. destruct (rejected arg) eqn:Hr; [done|].
  intros Hf. destruct (step_accepted mappings arg Hr) as [m ->]. by apply IH.
Qed.

Lemma find_rejected_some argv arg :
  arg ∈ argv → rejected arg = true →
  ∃ b, find rejected argv = Some b ∧ b ∈ argv ∧ rejected b = true.
Proof.
  intros Hin Hr. destruct (find rejected argv) as [b|] eqn:Hf.
  - exists b. split; [done|]. apply find_some in Hf as [Hb ?].
    split; [by apply list_elem_of_In|done].
  - eapply find_none in Hf; [|by apply list_elem_of_In]. congruence.
Qed.

Lemma load_mappings_raises argv e :
  load_mappings argv = Raise e →
  ∃ b, b ∈ argv ∧ rejected b = true ∧ e = invalid_remapping b.
Proof.
  intros H. destruct (find rejected argv) as [b|] eqn:Hf.
  - pose proof (loop_first_rejected ∅ argv b Hf) as H'.
    unfold load_mappings in H. rewrite H' in H. injection H as <-.
    apply find_some in Hf as [Hb ?]. exists b. by rewrite list_elem_of_In.
  - destruct (loop_none_rejected ∅ argv Hf) as [m Hm].
    unfold load_mappings in H. congruence.
Qed.

Lemma loop_without_delimiter mappings argv :
  Forall (λ a, contains REMAP a = false) argv →
  load_mappings_loop mappings argv = OK mappings ∧ filter_remap argv = argv.
Proof.
  induction 1 as [|a argv Ha _ [IH1 IH2]]; [done|]. split.
  - cbn [load_mappings_loop]. by rewrite step_without_delimiter.
  - unfold filter_remap in *. rewrite filter_cons_True by done. by f_equal.
Qed.

End RemapExtractor.

Section RemapClaims.

Import cli.

Variable sys_stderr : stream.
Variable py_int : string → option Z.
Variable py_repr : string → string.

Implicit Types (arg s d : string) (argv : list string)
  (mappings : gmap string string).

Lemma process_args_aborts argv require_input b :
  load_mappings argv = Raise (invalid_remapping b) →
  process_args sys_stderr py_int py_repr argv require_input
  = Raise (invalid_remapping b).
Proof.
  intros H. unfold process_args, substitution_args. by rewrite H.
Qed.

(** C10. [load_mappings] raises exactly when some argument holds the
    delimiter and its split on every occurrence has a number of parts other
    than two, which is to say the token holds two or more occurrences; an
    argument vector whose tokens hold at most one occurrence each never
    raises, whatever the trimmed parts are. *)
Theorem load_mappings_raises_iff argv :
  ((∃ e, load_mappings argv = Raise e) ↔
   (∃ arg, arg ∈ argv ∧ contains REMAP arg = true
           ∧ length (split REMAP arg) ≠ 2%nat))
  ∧ (∀ arg, (contains REMAP arg = true ∧ length (split REMAP arg) ≠ 2%nat)
            ↔ (2 ≤ count REMAP arg)%nat)
  ∧ (Forall (λ arg, (count REMAP arg ≤ 1)%nat) argv →
     ∃ m, load_mappings argv = OK m).
Proof.
  assert (Hrej : ∀ arg, rejected arg = true ↔ (2 ≤ count REMAP arg)%nat).
  { intros arg. unfold rejected.
    rewrite contains_count, split_length by done.
    rewrite andb_true_iff, bool_decide_eq_true, negb_true_iff, Nat.eqb_neq. lia. }
  assert (Hparts : ∀ arg, rejected arg = true ↔
            contains REMAP arg = true ∧ length (split REMAP arg) ≠ 2%nat).
  { intros arg. unfold rejected.
    by rewrite andb_true_iff, negb_true_iff, Nat.eqb_neq. }
  split; [|split].
  - split.
    + intros [e He]. apply load_mappings_raises in He as (b & Hb & Hr & _).
      exists b. split; [done|]. by apply Hparts.
    + intros (arg & Hin & Hbad). apply Hparts in Hbad.
      destruct (find_rejected_some argv arg Hin Hbad) as (b & Hf & _).
      eexists. by apply loop_first_rejected.
  - intros arg. by rewrite <- Hparts, Hrej.
  - intros Hall. apply loop_none_rejected.
    destruct (find rejected argv) as [b|] eqn:Hf; [|done].
    apply find_some in Hf as [Hb Hr]. apply Hrej in Hr.
    rewrite Forall_forall in Hall. apply list_elem_of_In, Hall in Hb. lia.
Qed.

(** C2, amended. A token that holds the delimiter and does not split into
    exactly two parts makes the extractor fail with the runtime error that
    names the first such token of the vector, and argument resolution ends
    with that error, returning no mapping. A token that splits into two
    parts one of which is empty after trimming raises nothing and leaves
    the mapping as it was. *)
Theorem invalid_remap_aborts argv require_input :
  (∀ arg, arg ∈ argv → contains REMAP arg = true →
     length (split REMAP arg) ≠ 2%nat →
     ∃ b, find rejected argv = Some b ∧ b ∈ argv ∧ rejected b = true
          ∧ load_mappings argv = Raise (invalid_remapping b)
          ∧ process_args sys_stderr py_int py_repr argv require_input
            = Raise (invalid_remapping b))
  ∧ (∀ mappings arg s d, split REMAP arg = [s; d] →
       strip s = EmptyString ∨ strip d = EmptyString →
       load_mappings_step mappings arg = OK mappings).
Proof.
  split.
  - intros arg Hin Hc Hl.
    assert (rejected arg = true) as Hr.
    { unfold rejected. rewrite Hc. by apply negb_true_iff, Nat.eqb_neq. }
    destruct (find_rejected_some argv arg Hin Hr) as (b & Hf & Hb & Hrb).
    exists b. pose proof (loop_first_rejected ∅ argv b Hf) as Hl'.
    repeat split; try done. by apply process_args_aborts.
  - intros mappings arg s d Hs Hempty. rewrite (step_pair _ _ _ _ Hs).
    unfold entry_of. destruct Hempty as [-> | ->]; [done|].
    by rewrite andb_false_r.
Qed.

(** C3, amended. A token that holds the delimiter is split on every
    occurrence of it: the parts joined by the delimiter give the token
    back, no part holds the delimiter, and there is one part more than
    there are occurrences. With exactly one occurrence the parts are the
    text before and after it, and their trimmed forms are the source and
    the destination; with more than one occurrence the token is rejected
    with the invalid-remapping error. *)
Theorem split_on_every_occurrence arg :
  contains REMAP arg = true →
  join REMAP (split REMAP arg) = arg
  ∧ Forall (λ p, contains REMAP p = false) (split REMAP arg)
  ∧ length (split REMAP arg) = S (count REMAP arg)
  ∧ (count REMAP arg = 1%nat →
     ∃ s d, split REMAP arg = [s; d] ∧ arg = s +:+ REMAP +:+ d
            ∧ unpack2 (map strip (split REMAP arg)) = OK (strip s, strip d)
            ∧ ∀ mappings,
                load_mappings_step mappings arg = OK (entry_of mappings s d))
  ∧ (count REMAP arg ≠ 1%nat →
     ∀ mappings, load_mappings_step mappings arg = Raise (invalid_remapping arg)).
Proof.
  intros Hc. pose proof (join_split REMAP arg REMAP_nonempty) as J.
  pose proof (split_length REMAP arg) as L.
  repeat split; try done.
  - apply split_from_no_remap.
  - intros H1. rewrite H1 in L.
    destruct (split REMAP arg) as [|s [|d [|x l]]] eqn:Hs; try done.
    exists s, d. repeat split; try done.
    intros mappings. by apply step_pair.
  - intros Hn mappings. apply step_rejected. unfold rejected.
    rewrite Hc, L. apply negb_true_iff, Nat.eqb_neq. lia.
Qed.

(** C4, amended. For a remap token with a non-empty trimmed destination:
    the token never reaches the filtered vector; when the trimmed source
    has at least two characters, the first an underscore and the second
    not, the pair is a parameter assignment and the mapping is left as it
    was; a source with two leading underscores is inserted; and the source
    that is the single character ["_"] is inserted too. *)
Theorem parameter_assignment_rule arg s d mappings argv :
  split REMAP arg = [s; d] → strip d ≠ EmptyString →
  (arg ∉ filter_remap argv)
  ∧ (∀ c r, strip s = String "_" (String c r) → c ≠ "_"%char →
       load_mappings_step mappings arg = OK mappings)
  ∧ (∀ r, strip s = String "_" (String "_" r) →
       load_mappings_step mappings arg = OK (<[strip s := strip d]> mappings))
  ∧ (strip s = "_" →
       load_mappings_step mappings arg = OK (<["_" := strip d]> mappings)).
Proof.
  intros Hs Hd. pose proof (split_two_contains _ _ _ Hs) as Hc.
  apply String.eqb_neq in Hd.
  rewrite (step_pair _ _ _ _ Hs). unfold entry_of. rewrite Hd.
  repeat split.
  - unfold filter_remap. rewrite list_elem_of_filter. intros [? _]. congruence.
  - intros c r -> Hne. cbn. apply Ascii.eqb_neq in Hne. by rewrite Hne.
  - by intros r ->.
  - by intros ->.
Qed.

End RemapClaims.

Lemma invalid_remap_aborts_witness :
  cli.load_mappings ["-q"; "a:=b:=c"; "in.xacro"]
  = Raise (cli.invalid_remapping "a:=b:=c")
  ∧ cli.process_args plain_stderr no_int plain_repr
      ["-q"; "a:=b:=c"; "in.xacro"] true
    = Raise (cli.invalid_remapping "a:=b:=c")
  ∧ cli.load_mappings_step ∅ "foo:=" = OK ∅.
Proof.
  destruct (invalid_remap_aborts plain_stderr no_int plain_repr
              ["-q"; "a:=b:=c"; "in.xacro"] true) as [H1 H2].
  destruct (H1 "a:=b:=c") as (b & Hf & _ & _ & Hl & Hp).
  - set_solver.
  - reflexivity.
  - vm_compute. lia.
  - vm_compute in Hf. injection Hf as <-. split; [exact Hl|]. split; [exact Hp|].
    apply (H2 ∅ "foo:=" "foo" ""); [reflexivity|]. right. reflexivity.
Defined.

(** C2, as stated, fails: a token with an empty side is skipped. *)
Lemma empty_side_is_skipped :
  contains cli.REMAP ":=bar" = true
  ∧ map strip (split cli.REMAP ":=bar") = [""; "bar"]
  ∧ cli.load_mappings [":=bar"] = OK ∅
  ∧ cli.load_mappings ["foo:="] = OK ∅
  ∧ raises (cli.process_args plain_stderr no_int plain_repr
              [":=bar"; "in.xacro"] true) = false.
Proof. repeat split; vm_compute; reflexivity. Qed.

Lemma split_on_every_occurrence_witness :
  split cli.REMAP "a:=b:=c" = ["a"; "b"; "c"]
  ∧ cli.load_mappings_step ∅ "a:=b:=c" = Raise (cli.invalid_remapping "a:=b:=c").
Proof.
  destruct (split_on_every_occurrence "a:=b:=c") as (_ & _ & _ & _ & H);
    [reflexivity|].
  split; [reflexivity|]. apply H. vm_compute. lia.
Defined.

(** C3, as stated, fails: ["a:=b:=c"] has three parts and is rejected, it
    does not yield the source ["a"] with the destination ["b:=c"]. *)
Lemma second_delimiter_is_rejected :
  cli.load_mappings ["a:=b:=c"] = Raise (cli.invalid_remapping "a:=b:=c")
  ∧ cli.load_mappings ["a:=b:=c"] ≠ OK (<["a" := "b:=c"]> ∅).
Proof. split; [reflexivity|discriminate]. Qed.

Lemma parameter_assignment_rule_witness :
  ("_foo:=bar" ∉ cli.filter_remap ["_foo:=bar"; "in.xacro"])
  ∧ cli.load_mappings_step ∅ "_foo:=bar" = OK ∅
  ∧ cli.load_mappings_step ∅ " __foo := bar" = OK (<["__foo" := "bar"]> ∅).
Proof.
  destruct (parameter_assignment_rule "_foo:=bar" "_foo" "bar" ∅
              ["_foo:=bar"; "in.xacro"]) as (H1 & H2 & _); [reflexivity|done|].
  destruct (parameter_assignment_rule " __foo := bar" " __foo " " bar" ∅ [])
    as (_ & _ & H3 & _); [reflexivity|done|].
  split; [exact H1|]. split.
  - apply (H2 "f"%char "oo"); [reflexivity|done].
  - apply (H3 "foo"). reflexivity.
Defined.

(** C4, as stated, fails at its boundary case: the source ["_"] is
    inserted into the mapping. *)
Lemma lone_underscore_is_mapped :
  cli.load_mappings ["_:=bar"] = OK (<["_" := "bar"]> ∅)
  ∧ cli.load_mappings ["_:=bar"] ≠ OK ∅.
Proof. split; [reflexivity|]. vm_compute. discriminate. Qed.

Lemma load_mappings_raises_iff_witness :
  (∃ e, cli.load_mappings ["x:=y"; "a:=b:=c"] = Raise e)
  ∧ (∃ m, cli.load_mappings [":=bar"; "foo:="; "x:=y"] = OK m).
Proof.
  split.
  - apply (load_mappings_raises_iff ["x:=y"; "a:=b:=c"]).
    exists "a:=b:=c". split; [set_solver|]. split; [reflexivity|]. vm_compute. lia.
  - apply (load_mappings_raises_iff [":=bar"; "foo:="; "x:=y"]).
    repeat constructor.
Defined.

(** ** The flag parser on the options of [process_args] *)

Section FlagParser.

Variable sys_stderr : cli.stream.
Variable py_int : string → option Z.
Variable py_repr : string → string.

Implicit Types (arg : string) (largs rest : list string)
  (values : gmap string pyval).

Local Abbreviation scan :=
  (optparse._process_args (cli.ColoredOptionParser_error sys_stderr)
     py_int py_repr (cli.parser)).
Local Abbreviation parse :=
  (optparse.parse_args (cli.ColoredOptionParser_error sys_stderr)
     py_int py_repr (cli.parser)).

Lemma positional_tests arg :
  positional arg = true →
  String.eqb arg "--" = false ∧ String.prefix "--" arg = false
  ∧ String.prefix "-" arg && (1 <? String.length arg)%nat = false.
Proof.
  unfold positional. intros H%negb_true_iff. split; [|split]; [| |done].
  - apply String.eqb_neq. by intros ->.
  - destruct (String.prefix "--" arg) eqn:E; [|done].
    apply prefix_app_drop in E.
    set (r := str_drop _ arg) in E. clearbody r. subst arg.
    by cbn in H.
Qed.

Lemma scan_positional arg largs rest values :
  positional arg = true →
  scan largs (arg :: rest) values = scan (largs ++ [arg]) rest values.
Proof.
  intros (H1 & H2 & H3)%positional_tests.
  cbn [optparse._process_args]. by rewrite H1, H2, H3.
Qed.

Lemma scan_quiet largs rest values :
  scan largs ("-q" :: rest) values
  = scan largs rest (<["verbosity" := PInt 0]> values).
Proof. reflexivity. Qed.

Lemma scan_verbose largs rest values n :
  values !! "verbosity" = Some (PInt n) →
  scan largs ("-v" :: rest) values
  = scan largs rest (<["verbosity" := PInt (n + 1)]> values).
Proof.
  intros H.
  change (scan largs ("-v" :: rest) values)
    with ('(values', took) ←
            (values' ← (n ← optparse.count_up (values !! "verbosity");
                        OK (<["verbosity" := n]> values));
             OK (values', false));
          match took, rest with
          | true, _ :: rest' => scan largs rest' values'
          | _, _ => scan largs rest values'
          end).
  by rewrite H.
Qed.

Lemma scan_level largs rest values tok n :
  py_int tok = Some n →
  scan largs ("--verbosity" :: tok :: rest) values
  = scan largs rest (<["verbosity" := PInt n]> values).
Proof.
  intros H.
  change (scan largs ("--verbosity" :: tok :: rest) values)
    with ('(values', took) ←
            (values' ← (v ← match py_int tok with
                             | Some n => OK (PInt n)
                             | None =>
                                 Raise (OptionValueError
                                          ("option --verbosity: invalid integer value: "
                                           +:+ py_repr tok))
                             end;
                        OK (<["verbosity" := v]> values));
             OK (values', true));
          match took, tok :: rest with
          | true, _ :: rest' => scan largs rest' values'
          | _, _ => scan largs (tok :: rest) values'
          end).
  by rewrite H.
Qed.

Lemma scan_vflags largs rest values v (flags : list vflag) :
  values !! "verbosity" = Some (PInt v) →
  Forall (λ f, match f with
               | Level tok n => py_int tok = Some n
               | _ => True
               end) flags →
  scan largs (flat_map vflag_tokens flags ++ rest) values
  = scan largs rest (<["verbosity" := PInt (foldl vflag_apply v flags)]> values).
Proof.
  intros Hv Hok. revert values v Hv.
  induction Hok as [|f flags Hf _ IH]; intros values v Hv.
  - cbn [flat_map foldl app]. by rewrite insert_id.
  - cbn [flat_map foldl]. rewrite <- app_assoc.
    destruct f as [| |tok n]; cbn [vflag_tokens vflag_apply app].
    + rewrite scan_quiet, (IH _ 0) by apply lookup_insert_eq.
      by rewrite insert_insert_eq.
    + rewrite (scan_verbose _ _ _ v), (IH _ (v + 1)) by
        (done || apply lookup_insert_eq).
      by rewrite insert_insert_eq.
    + rewrite (scan_level _ _ _ tok n), (IH _ n) by
        (done || apply lookup_insert_eq).
      by rewrite insert_insert_eq.
Qed.

(** [process_args] once the remaps are extracted and the flags parsed. *)
Lemma process_args_after_parse argv require_input mappings options pos_args v :
  cli.load_mappings argv = OK mappings →
  parse (cli.filter_remap argv) = OK (options, pos_args) →
  options !! "in_order" = Some v →
  cli.process_args sys_stderr py_int py_repr argv require_input
  = (_ ← (if truthy v
          then cli.message sys_stderr (PStr cli.in_order_notice) [] cli.no_kwargs
          else OK EmptyString);
     input ← cli.input_argument sys_stderr pos_args require_input;
     OK (<["mappings" := PDict mappings]> (<["in_order" := PBool true]> options),
         input)).
Proof.
  intros Hl Hp Hv. unfold cli.process_args, cli.substitution_args.
  rewrite Hl. cbn [mbind result_bind]. rewrite Hp. cbn [mbind result_bind].
  unfold cli.getattr. by rewrite Hv.
Qed.

(** The notice for the legacy flag is an uncategorized message without
    alt text: formatting it raises. *)
Lemma in_order_notice_raises :
  cli.message sys_stderr (PStr cli.in_order_notice) [] cli.no_kwargs
  = Raise TypeError.
Proof. reflexivity. Qed.

End FlagParser.

(** ** Argument resolution *)

Section ArgumentResolver.

Variable sys_stderr : cli.stream.
Variable py_int : string → option Z.
Variable py_repr : string → string.

Implicit Types (argv pos_args : list string) (p : string).

Local Abbreviation parse :=
  (optparse.parse_args (cli.ColoredOptionParser_error sys_stderr)
     py_int py_repr (cli.parser)).
Local Abbreviation process_args := (cli.process_args sys_stderr py_int py_repr).

Lemma parser_defaults :
  optparse.defaults cli.parser
  = <["output" := PNone]> (<["just_deps" := PBool false]>
    (<["in_order" := PNone]> (<["verbosity" := PInt 1]> ∅))).
Proof. reflexivity. Qed.

Lemma options_dict_of_values v mappings :
  <["mappings" := PDict mappings]>
    (<["in_order" := PBool true]>
       (<["verbosity" := PInt v]> (optparse.defaults cli.parser)))
  = options_dict PNone false v mappings.
Proof.
  rewrite parser_defaults. apply map_eq. intros k. unfold options_dict.
  destruct (decide (k = "output")) as [->|]; [done|].
  destruct (decide (k = "just_deps")) as [->|]; [done|].
  destruct (decide (k = "in_order")) as [->|]; [done|].
  destruct (decide (k = "verbosity")) as [->|]; [done|].
  destruct (decide (k = "mappings")) as [->|]; [done|].
  by rewrite !lookup_insert_ne, !lookup_empty.
Qed.

Lemma parse_vflags (flags : list vflag) p :
  Forall (vflag_ok py_int) flags → positional p = true →
  parse (flat_map vflag_tokens flags ++ [p])
  = OK (<["verbosity" := PInt (foldl vflag_apply 1 flags)]>
          (optparse.defaults cli.parser), [p]).
Proof.
  intros Hok Hp. unfold optparse.parse_args.
  rewrite (scan_vflags _ _ _ _ _ _ 1); [|done|].
  - by rewrite scan_positional.
  - eapply Forall_impl; [exact Hok|]. by intros [| |tok n]; [| |intros []].
Qed.

Lemma vflags_without_delimiter (flags : list vflag) p :
  Forall (vflag_ok py_int) flags → contains cli.REMAP p = false →
  Forall (λ a, contains cli.REMAP a = false) (flat_map vflag_tokens flags ++ [p]).
Proof.
  intros Hok Hp. apply Forall_app. split; [|by constructor].
  induction Hok as [|f flags Hf _ IH]; [constructor|].
  cbn [flat_map]. apply Forall_app. split; [|done].
  destruct f as [| |tok n]; repeat constructor. by destruct Hf.
Qed.

(** C6. With no flags and one positional argument [p], resolution succeeds
    with the options [output=None], [just_deps=False], [in_order=True],
    [verbosity=1] and empty mappings, and with [p] as the input
    identifier. *)
Theorem resolve_single_positional p require_input :
  positional p = true → contains cli.REMAP p = false →
  process_args [p] require_input = OK (options_dict PNone false 1 ∅, PStr p).
Proof.
  intros Hp Hc.
  destruct (loop_without_delimiter ∅ [p]) as [Hl Hf]; [by constructor|].
  pose proof (parse_vflags [] p ltac:(constructor) Hp) as Hparse.
  cbn [flat_map foldl app] in Hparse.
  rewrite (process_args_after_parse _ _ _ _ _ _ _ _ PNone Hl
             ltac:(by rewrite Hf)); [|done].
  cbn. by rewrite options_dict_of_values.
Qed.

(** C9. The verbosity flags of an invocation act on the verbosity field in
    the order they are given, starting from the default 1: [-q] sets 0,
    [--verbosity LEVEL] sets LEVEL, and [-v] adds one to the value held at
    that point. *)
Theorem verbosity_flags_in_order (flags : list vflag) p require_input :
  Forall (vflag_ok py_int) flags →
  positional p = true → contains cli.REMAP p = false →
  parse (flat_map vflag_tokens flags ++ [p])
  = OK (<["verbosity" := PInt (foldl vflag_apply 1 flags)]>
          (optparse.defaults cli.parser), [p])
  ∧ process_args (flat_map vflag_tokens flags ++ [p]) require_input
    = OK (options_dict PNone false (foldl vflag_apply 1 flags) ∅, PStr p).
Proof.
  intros Hok Hp Hc. pose proof (parse_vflags flags p Hok Hp) as Hparse.
  split; [done|].
  destruct (loop_without_delimiter ∅ (flat_map vflag_tokens flags ++ [p]))
    as [Hl Hf]; [by apply vflags_without_delimiter|].
  rewrite (process_args_after_parse _ _ _ _ _ _ _ _ PNone Hl
             ltac:(by rewrite Hf)); [|by rewrite lookup_insert_ne].
  cbn. by rewrite options_dict_of_values.
Qed.

(** The check of the positional arguments, for a vector parsed without the
    legacy flag: a count other than one is a usage error (colorized
    message, exit status 2) when input is required, and a null input
    identifier when it is not. *)
Lemma input_check_without_legacy_flag argv mappings options pos_args v :
  cli.load_mappings argv = OK mappings →
  parse (cli.filter_remap argv) = OK (options, pos_args) →
  options !! "in_order" = Some v → truthy v = false →
  length pos_args ≠ 1%nat →
  (∃ msg, cli.colorize (PStr "expected exactly one input file as argument")
            (PStr "red") sys_stderr (PStr "") = OK msg
          ∧ process_args argv true = Raise (SystemExit 2 msg))
  ∧ process_args argv false
    = OK (<["mappings" := PDict mappings]> (<["in_order" := PBool true]> options),
          PNone).
Proof.
  intros Hl Hparse Hv Ht Hn. split.
  - rewrite (process_args_after_parse _ _ _ _ _ _ _ _ v Hl Hparse Hv), Ht.
    unfold cli.input_argument. rewrite bool_decide_eq_true_2 by done.
    destruct sys_stderr as [[[]|]]; eexists; split; reflexivity.
  - rewrite (process_args_after_parse _ _ _ _ _ _ _ _ v Hl Hparse Hv), Ht.
    unfold cli.input_argument. by rewrite bool_decide_eq_true_2.
Qed.

(** C7, on the code. The vector [["-i"]] parses with no positional
    argument left, and resolution ends with the [TypeError] of the
    obsolescence notice before the positional arguments are counted, with
    input required or not. *)
Theorem legacy_flag_preempts_input_check require_input :
  parse (cli.filter_remap ["-i"])
  = OK (<["in_order" := PBool true]> (optparse.defaults cli.parser), [])
  ∧ process_args ["-i"] require_input = Raise TypeError.
Proof. split; reflexivity. Qed.

(** C8. The vector handed to flag parsing is the raw vector without the
    tokens that hold the delimiter: it holds no such token, every other
    token is kept as it is and as often as it occurs, and the order is that
    of the raw vector. *)
Theorem filtered_vector argv :
  (∀ mappings filtered,
     cli.substitution_args sys_stderr argv = OK (mappings, filtered) →
     filtered = cli.filter_remap argv)
  ∧ (∀ a, a ∈ cli.filter_remap argv ↔ a ∈ argv ∧ contains cli.REMAP a = false)
  ∧ cli.filter_remap argv `sublist_of` argv
  ∧ (∀ l1 l2, argv = l1 ++ l2 →
       cli.filter_remap argv = cli.filter_remap l1 ++ cli.filter_remap l2)
  ∧ (∀ a, cli.filter_remap [a] = if contains cli.REMAP a then [] else [a]).
Proof.
  clear py_int py_repr. split; [|split; [|split; [|split]]].
  - intros mappings filtered. unfold cli.substitution_args.
    destruct (cli.load_mappings argv) as [m|e] eqn:Hl; [by intros [= _ <-]|].
    apply load_mappings_raises in Hl as (b & _ & _ & ->). done.
  - intros a. unfold cli.filter_remap. rewrite list_elem_of_filter. tauto.
  - apply sublist_filter.
  - intros l1 l2 ->. apply filter_app.
  - intros a. unfold cli.filter_remap. cbn.
    by destruct (contains cli.REMAP a).
Qed.

(** Resolution reaches flag parsing whenever the extractor accepts the
    vector. *)
Lemma substitution_args_total argv mappings :
  cli.load_mappings argv = OK mappings →
  cli.substitution_args sys_stderr argv = OK (mappings, cli.filter_remap argv).
Proof. intros H. unfold cli.substitution_args. by rewrite H. Qed.

End ArgumentResolver.

(** ** Diagnostics *)

Section DiagnosticsFacts.

Variable sys_stderr : cli.stream.

Implicit Types (msg alt : string) (args : list string) (file : cli.stream).

(** With a [str] for the alt text, formatting never raises: the message is
    wrapped in the colour escapes on an interactive stream and prefixed
    with the alt text on any other. *)
Lemma colorize_interactive msg alt :
  cli.colorize (PStr msg) (PStr "red") (cli.make_stream (Some true)) (PStr alt)
  = OK (cli.ESC +:+ "[91m" +:+ msg +:+ cli.ESC +:+ "[0m")
  ∧ cli.colorize (PStr msg) (PStr "yellow") (cli.make_stream (Some true)) (PStr alt)
    = OK (cli.ESC +:+ "[93m" +:+ msg +:+ cli.ESC +:+ "[0m").
Proof. split; reflexivity. Qed.

Lemma colorize_plain msg alt (color : string) file :
  cli.isatty file ≠ Some true →
  cli.colorize (PStr msg) (PStr color) file (PStr alt) = OK (alt +:+ msg).
Proof.
  intros H. unfold cli.colorize. cbn [cli._ansi_get mbind result_bind].
  destruct (cli._ansi !! color) as [c|]; [|done].
  destruct file as [[[]|]]; done.
Qed.

Lemma warning_plain msg args file :
  cli.isatty file ≠ Some true →
  cli.warning sys_stderr (PStr msg) args (cli.make_kwargs (Some file) None None)
  = OK (cli.print ("warning: " +:+ msg) args).
Proof.
  intros H. unfold cli.warning, cli.message. cbn [cli.update cli.kw_file
    cli.kw_alt_text cli.kw_color default from_option id].
  by rewrite colorize_plain.
Qed.

Lemma error_plain msg args file :
  cli.isatty file ≠ Some true →
  cli.error sys_stderr (PStr msg) args (cli.make_kwargs (Some file) None None)
  = OK (cli.print ("error: " +:+ msg) args).
Proof.
  intros H. unfold cli.error, cli.message. cbn [cli.update cli.kw_file
    cli.kw_alt_text cli.kw_color default from_option id].
  by rewrite colorize_plain.
Qed.

(** [warning] and [error] with their own alt text and colour complete on
    every stream. *)
Lemma warning_error_complete msg args (file : option cli.stream) :
  raises (cli.warning sys_stderr (PStr msg) args (cli.make_kwargs file None None))
  = false
  ∧ raises (cli.error sys_stderr (PStr msg) args (cli.make_kwargs file None None))
    = false.
Proof.
  destruct file as [[[[]|]]|]; try (split; reflexivity);
    destruct sys_stderr as [[[]|]]; split; reflexivity.
Qed.

(** C1, on the code. [message] called without alt text and without colour
    hands [None] to the string conversion of the alt text and raises
    [TypeError], for every message string and on every target stream; the
    obsolescence notice of [process_args] is such a call. *)
Theorem message_without_alt_text_raises msg args (file : option cli.stream) :
  cli.message sys_stderr (PStr msg) args (cli.make_kwargs file None None)
  = Raise TypeError
  ∧ cli.message sys_stderr (PStr cli.in_order_notice) [] cli.no_kwargs
    = Raise TypeError.
Proof. split; reflexivity. Qed.

End DiagnosticsFacts.

(** ** The capturing entrypoint *)

Section Capture.

Import xacro.

Variable engine : pyval → gmap string pyval → list string * option exn.

Implicit Types (w : world) (chunks : list string) (buf text : string).

Lemma str_app_cons c (a b : string) : String c a +:+ b = String c (a +:+ b).
Proof. done. Qed.

Lemma str_app_nil_r text : text +:+ EmptyString = text.
Proof. induction text as [|c text IH]; [done|]. by rewrite str_app_cons, IH. Qed.

Lemma str_app_assoc (a b c : string) : (a +:+ b) +:+ c = a +:+ b +:+ c.
Proof. induction a as [|x a IH]; [done|]. by rewrite !str_app_cons, IH. Qed.

Lemma str_length_app (a b : string) :
  String.length (a +:+ b) = (String.length a + String.length b)%nat.
Proof.
  induction a as [|x a IH]; [done|]. rewrite str_app_cons. simpl. by rewrite IH.
Qed.

Lemma str_drop_nil n : str_drop n EmptyString = EmptyString.
Proof. by destruct n. Qed.

Lemma overwrite_at_end buf text :
  overwrite buf (String.length buf) text = buf +:+ text.
Proof.
  induction buf as [|c buf IH]; simpl.
  - by rewrite str_drop_nil, str_app_nil_r.
  - by rewrite IH, str_app_cons.
Qed.

Lemma bind_run {A B} (m : M A) (k : A → M B) w a w' :
  m w = (OK a, w') → (m ≫= k) w = k a w'.
Proof. intros H. unfold mbind, M_bind. by rewrite H. Qed.

Lemma seek_sink w f buf pos n :
  heap w !! f = Some (StringIO buf pos) →
  seek f n w
  = (OK (), make_world (sys_stdout w) (<[f := StringIO buf n]> (heap w))).
Proof. intros H. unfold seek. by rewrite H. Qed.

Lemma read_sink w f buf pos :
  heap w !! f = Some (StringIO buf pos) →
  read f w
  = (OK (str_drop pos buf),
     make_world (sys_stdout w)
       (<[f := StringIO buf (Nat.max pos (String.length buf))]> (heap w))).
Proof. intros H. unfold read. by rewrite H. Qed.

(** Writes to a sink positioned at its end append to it. *)
Lemma write_all_appends chunks w f buf :
  sys_stdout w = f →
  heap w !! f = Some (StringIO buf (String.length buf)) →
  write_all chunks w
  = (OK (),
     make_world f
       (<[f := StringIO (buf +:+ join "" chunks)
                 (String.length (buf +:+ join "" chunks))]> (heap w))).
Proof.
  revert w buf. induction chunks as [|c chunks IH]; intros w buf Hout Hf.
  - cbn. rewrite str_app_nil_r, insert_id by done. by destruct w; subst.
  - cbn [write_all]. unfold mbind, M_bind, get_stdout.
    unfold write at 1. rewrite Hout, Hf, overwrite_at_end.
    rewrite <- str_length_app.
    rewrite (IH _ (buf +:+ c)); [|done|apply lookup_insert_eq].
    cbn [heap]. rewrite insert_insert_eq.
    assert (join "" (c :: chunks) = c +:+ join "" chunks) as ->.
    { destruct chunks; [symmetry; apply str_app_nil_r|reflexivity]. }
    by rewrite str_app_assoc.
Qed.

(** C5. When the engine returns normally, [process] returns the text the
    engine wrote, from its first character; [sys.stdout] is bound on
    return to the stream it was bound to before the call; the text went to
    a new in-memory sink and the streams that existed before are left as
    they were; and the options the engine was called with have
    [output=None]. *)
Theorem process_captures_output input_file_name just_deps xacro_ns verbosity
    mappings chunks w :
  engine (PStr input_file_name)
    (process_opts just_deps xacro_ns verbosity mappings) = (chunks, None) →
  process_opts just_deps xacro_ns verbosity mappings !! "output" = Some PNone
  ∧ ∃ w' sink,
      process engine input_file_name just_deps xacro_ns verbosity mappings w
      = (OK (join "" chunks), w')
      ∧ sys_stdout w' = sys_stdout w
      ∧ (sink ∉ dom (heap w)) ∧ sink ≠ sys_stdout w
      ∧ heap w' = <[sink := StringIO (join "" chunks)
                              (String.length (join "" chunks))]> (heap w).
Proof.
  intros He. split; [done|].
  set (sink := fresh ({[sys_stdout w]} ∪ dom (heap w))).
  assert (sink ∉ {[sys_stdout w]} ∪ dom (heap w)) as Hfresh by apply is_fresh.
  set (text := join "" chunks).
  exists (make_world (sys_stdout w)
            (<[sink := StringIO text (String.length text)]> (heap w))), sink.
  split; [|set_solver].
  unfold process.
  erewrite bind_run by reflexivity.
  erewrite bind_run by reflexivity. fold sink.
  erewrite bind_run by reflexivity.
  erewrite bind_run.
  2:{ unfold process_file_process. rewrite He.
      erewrite bind_run; [reflexivity|].
      apply (write_all_appends chunks _ sink EmptyString);
        [done|apply lookup_insert_eq]. }
  cbn [heap sys_stdout]. rewrite insert_insert_eq.
  change (EmptyString +:+ join "" chunks) with text.
  erewrite bind_run by reflexivity.
  erewrite bind_run by (eapply seek_sink, lookup_insert_eq).
  erewrite bind_run by reflexivity.
  erewrite bind_run by (eapply read_sink, lookup_insert_eq).
  erewrite bind_run by reflexivity.
  cbn [heap sys_stdout str_drop mret M_ret].
  by rewrite !insert_insert_eq, Nat.max_0_l.
Qed.

(** When the engine ends with an exception, so does [process], and
    [sys.stdout] stays bound to the sink. *)
Lemma process_leaves_sink_bound input_file_name just_deps xacro_ns verbosity
    mappings chunks e w :
  engine (PStr input_file_name)
    (process_opts just_deps xacro_ns verbosity mappings) = (chunks, Some e) →
  ∃ w', process engine input_file_name just_deps xacro_ns verbosity mappings w
        = (Raise e, w')
        ∧ sys_stdout w' = fresh ({[sys_stdout w]} ∪ dom (heap w)).
Proof.
  intros He. set (sink := fresh ({[sys_stdout w]} ∪ dom (heap w))).
  eexists. unfold process.
  erewrite bind_run by reflexivity.
  erewrite bind_run by reflexivity. fold sink.
  erewrite bind_run by reflexivity.
  unfold process_file_process. rewrite He.
  unfold mbind at 1, M_bind at 1.
  erewrite bind_run.
  2:{ apply (write_all_appends chunks _ sink EmptyString);
        [done|apply lookup_insert_eq]. }
  split; reflexivity.
Qed.

End Capture.

(** ** Examples *)

Lemma resolve_single_positional_witness :
  cli.process_args plain_stderr no_int plain_repr ["in.xacro"] true
  = OK (options_dict PNone false 1 ∅, PStr "in.xacro").
Proof.
  apply (resolve_single_positional plain_stderr no_int plain_repr "in.xacro" true);
    reflexivity.
Defined.

Lemma verbosity_flags_in_order_witness :
  cli.process_args plain_stderr digit_int plain_repr ["-q"; "-v"; "in.xacro"] true
  = OK (options_dict PNone false 1 ∅, PStr "in.xacro")
  ∧ cli.process_args plain_stderr digit_int plain_repr ["-v"; "-q"; "in.xacro"] true
    = OK (options_dict PNone false 0 ∅, PStr "in.xacro")
  ∧ cli.process_args plain_stderr digit_int plain_repr
      ["-v"; "--verbosity"; "3"; "-v"; "in.xacro"] true
    = OK (options_dict PNone false 4 ∅, PStr "in.xacro").
Proof.
  split; [|split].
  - apply (verbosity_flags_in_order plain_stderr digit_int plain_repr
             [Quiet; Verbose] "in.xacro" true); [repeat constructor|done|done].
  - apply (verbosity_flags_in_order plain_stderr digit_int plain_repr
             [Verbose; Quiet] "in.xacro" true); [repeat constructor|done|done].
  - apply (verbosity_flags_in_order plain_stderr digit_int plain_repr
             [Verbose; Level "3" 3; Verbose] "in.xacro" true);
      [repeat constructor|done|done].
Defined.

Lemma filtered_vector_witness :
  cli.substitution_args plain_stderr ["-q"; "a:=b"; "in.xacro"; "_c:=d"]
  = OK (<["a" := "b"]> ∅, ["-q"; "in.xacro"])
  ∧ cli.filter_remap ["-q"; "a:=b"; "in.xacro"; "_c:=d"] = ["-q"; "in.xacro"].
Proof.
  pose proof (filtered_vector plain_stderr ["-q"; "a:=b"; "in.xacro"; "_c:=d"])
    as [H _].
  split; [reflexivity|].
  symmetry. apply (H (<["a" := "b"]> ∅)). reflexivity.
Defined.

Lemma process_captures_output_witness :
  ∃ w', xacro.process two_chunk_engine "in.xacro" false true 1 ∅ terminal_world
        = (OK "<robot></robot>", w')
        ∧ xacro.sys_stdout w' = 0%nat
        ∧ xacro.heap w' !! 0%nat = Some (xacro.TextStream "$ ").
Proof.
  destruct (process_captures_output two_chunk_engine "in.xacro" false true 1 ∅
              ["<robot>"; "</robot>"] terminal_world eq_refl)
    as (_ & w' & sink & Hrun & Hout & Hnew & _ & Hheap).
  exists w'. split; [exact Hrun|]. split; [exact Hout|].
  rewrite Hheap. rewrite lookup_insert_ne; [reflexivity|].
  intros ->. apply Hnew. vm_compute. set_solver.
Defined.

(** * Further properties of the code *)

(** ** Trimming and splitting *)

Section StripFacts.

Implicit Types (s a b : string) (c : ascii).

Lemma rstrip_idem s : rstrip (rstrip s) = rstrip s.
Proof.
  induction s as [|c s IH]; [done|]. cbn [rstrip].
  destruct (isspace c && (rstrip s =? "")%string) eqn:E; [done|].
  cbn [rstrip]. by rewrite IH, E.
Qed.

Lemma lstrip_head s :
  lstrip s = EmptyString ∨ ∃ c r, lstrip s = String c r ∧ isspace c = false.
Proof.
  induction s as [|c s IH]; [by left|]. cbn [lstrip].
  destruct (isspace c) eqn:E; [done|]. right. by exists c, s.
Qed.

Lemma strip_idem s : strip (strip s) = strip s.
Proof.
  unfold strip. destruct (lstrip_head s) as [->|(c & r & -> & Hc)]; [done|].
  cbn [rstrip]. rewrite Hc. cbn [andb lstrip]. rewrite Hc.
  change (rstrip (String c (rstrip r))) with
    (if isspace c && (rstrip (rstrip r) =? "")%string then EmptyString
     else String c (rstrip (rstrip r))).
  by rewrite Hc, rstrip_idem.
Qed.

Lemma contains_cons sep c s :
  contains sep (String c s) = String.prefix sep (String c s) || contains sep s.
Proof. done. Qed.

Lemma count_zero_split sep s :
  sep ≠ EmptyString → contains sep s = false → split sep s = [s].
Proof.
  intros Hsep Hc. pose proof (split_length sep s) as L.
  pose proof (join_split sep s Hsep) as J.
  rewrite contains_count in Hc by done. apply bool_decide_eq_false in Hc.
  destruct (split sep s) as [|p [|q l]]; simpl in L; try lia.
  by rewrite <- J.
Qed.

(** Splitting a token built from a part without the delimiter, the
    delimiter and a rest. *)
Lemma split_remap_app a b :
  contains cli.REMAP a = false →
  split cli.REMAP (a +:+ cli.REMAP +:+ b) = a :: split cli.REMAP b.
Proof.
  induction a as [|c a IH]; intros Ha.
  { change (EmptyString +:+ cli.REMAP +:+ b) with (String ":" (String "=" b)).
    unfold split. by rewrite split_from_cons, prefix_remap_cons. }
  rewrite contains_cons in Ha. apply orb_false_iff in Ha as [Hp Ha].
  rewrite str_app_cons. unfold split in *. rewrite split_from_cons.
  assert (String.prefix cli.REMAP (String c (a +:+ cli.REMAP +:+ b)) = false) as ->.
  { destruct a as [|d a].
    - change (String c ("" +:+ cli.REMAP +:+ b)) with (String c (String ":" (String "=" b))).
      rewrite prefix_remap_cons. by rewrite andb_false_r.
    - rewrite str_app_cons, prefix_remap_cons. by rewrite prefix_remap_cons in Hp. }
  by rewrite IH.
Qed.

Lemma split_remap_pair a b :
  contains cli.REMAP a = false → contains cli.REMAP b = false →
  split cli.REMAP (a +:+ cli.REMAP +:+ b) = [a; b].
Proof.
  intros Ha Hb. rewrite split_remap_app by done.
  by rewrite count_zero_split.
Qed.

End StripFacts.

(** ** The Remap Extractor, beyond the claims *)

Section RemapExtras.

Import cli.

Implicit Types (arg s d k v : string) (argv rest : list string)
  (m : gmap string string).

Lemma loop_app m argv rest :
  load_mappings_loop m (argv ++ rest)
  = (m' ← load_mappings_loop m argv; load_mappings_loop m' rest).
Proof.
  revert m. induction argv as [|a argv IH]; intros m; [done|].
  cbn [app load_mappings_loop]. destruct (load_mappings_step m a); [apply IH|done].
Qed.

(** What one accepted token does to the mapping. *)
Lemma step_inv m arg m' :
  load_mappings_step m arg = OK m' →
  m' = m
  ∨ ∃ s d, split REMAP arg = [s; d] ∧ m' = <[strip s := strip d]> m
           ∧ strip s ≠ EmptyString ∧ strip d ≠ EmptyString
           ∧ is_parameter_assignment (strip s) = false.
Proof.
  intros H. destruct (rejected arg) eqn:Hr.
  { by rewrite step_rejected in H. }
  destruct (contains REMAP arg) eqn:Hc.
  - unfold rejected in Hr. rewrite Hc in Hr.
    apply negb_false_iff, Nat.eqb_eq in Hr.
    destruct (split REMAP arg) as [|s [|d [|x l]]] eqn:Hs; try done.
    rewrite (step_pair _ _ _ _ Hs) in H. injection H as <-. unfold entry_of.
    destruct (strip s =? "")%string eqn:E1; [by left|].
    destruct (strip d =? "")%string eqn:E2; [by left|].
    destruct (is_parameter_assignment (strip s)) eqn:E3; [by left|].
    right. exists s, d. apply String.eqb_neq in E1, E2. done.
  - rewrite step_without_delimiter in H by done. left. congruence.
Qed.

Lemma loop_entries m0 argv m k v :
  load_mappings_loop m0 argv = OK m → m !! k = Some v →
  m0 !! k = Some v
  ∨ ∃ arg s d, arg ∈ argv ∧ split REMAP arg = [s; d]
               ∧ k = strip s ∧ v = strip d
               ∧ strip s ≠ EmptyString ∧ strip d ≠ EmptyString
               ∧ is_parameter_assignment (strip s) = false.
Proof.
  revert m0. induction argv as [|a argv IH]; intros m0 Hl Hk.
  { left. cbn in Hl. congruence. }
  cbn [load_mappings_loop] in Hl.
  destruct (load_mappings_step m0 a) as [m1|] eqn:Hstep; [|done].
  destruct (IH m1 Hl Hk) as [H1|(arg & s & d & Hin & H)].
  - apply step_inv in Hstep as [->|(s & d & Hs & -> & Hn)]; [by left|].
    rewrite lookup_insert in H1. case_decide as E; [|by left].
    right. exists a, s, d. injection H1 as <-. subst k.
    split; [apply elem_of_cons; by left|done].
  - right. exists arg, s, d. split; [apply elem_of_cons; by right|done].
Qed.

(** X1. Tokens are taken from left to right and a later remap of a source
    replaces an earlier one: after a vector that gave the mapping [m], a
    token with a non-empty source and destination that is no parameter
    assignment, followed by tokens without the delimiter, gives [m] with
    the source bound to the destination and every other key as in [m]. *)
Theorem later_remap_overrides argv arg s d m rest :
  load_mappings argv = OK m → split REMAP arg = [s; d] →
  strip s ≠ EmptyString → strip d ≠ EmptyString →
  is_parameter_assignment (strip s) = false →
  Forall (λ a, contains REMAP a = false) rest →
  ∃ m', load_mappings (argv ++ arg :: rest) = OK m'
        ∧ m' !! strip s = Some (strip d)
        ∧ ∀ k, k ≠ strip s → m' !! k = m !! k.
Proof.
  intros Hl Hs H1 H2 H3 Hrest. exists (<[strip s := strip d]> m).
  unfold load_mappings in *. rewrite loop_app, Hl. cbn [mbind result_bind].
  cbn [load_mappings_loop]. rewrite (step_pair _ _ _ _ Hs). unfold entry_of.
  apply String.eqb_neq in H1, H2. rewrite H1, H2, H3. cbn [negb andb mbind result_bind].
  destruct (loop_without_delimiter (<[strip s := strip d]> m) rest Hrest) as [-> _].
  split; [done|]. split; [apply lookup_insert_eq|].
  intros k Hk. by rewrite lookup_insert_ne.
Qed.

(** X2. Every entry of a returned mapping is well formed: the key and the
    value are non-empty and carry no surrounding whitespace, and the key
    is not a parameter assignment (an underscore followed by another
    character that is not an underscore). *)
Theorem mappings_well_formed argv m k v :
  load_mappings argv = OK m → m !! k = Some v →
  k ≠ EmptyString ∧ v ≠ EmptyString ∧ strip k = k ∧ strip v = v
  ∧ is_parameter_assignment k = false.
Proof.
  intros Hl Hk.
  destruct (loop_entries ∅ argv m k v Hl Hk)
    as [H|(arg & s & d & _ & _ & -> & -> & H1 & H2 & H3)]; [done|].
  by rewrite !strip_idem.
Qed.

(** X3. Every entry of a returned mapping comes from a token of the
    vector: one that splits at the delimiter into two parts whose trimmed
    forms are the key and the value. *)
Theorem mappings_come_from_tokens argv m k v :
  load_mappings argv = OK m → m !! k = Some v →
  ∃ arg s d, arg ∈ argv ∧ arg = s +:+ REMAP +:+ d
             ∧ split REMAP arg = [s; d] ∧ k = strip s ∧ v = strip d.
Proof.
  intros Hl Hk.
  destruct (loop_entries ∅ argv m k v Hl Hk)
    as [H|(arg & s & d & Hin & Hs & -> & -> & _)]; [done|].
  exists arg, s, d. repeat split; try done.
  pose proof (join_split REMAP arg REMAP_nonempty) as J. by rewrite Hs in J.
Qed.

(** X4. Round trip: the token built from a source and a destination that
    hold no delimiter, joined by the delimiter, is extracted as the
    trimmed source bound to the trimmed destination (when these are
    non-empty and the source is no parameter assignment), and the token
    does not reach the filtered vector. *)
Theorem remap_token_round_trip s d :
  contains REMAP s = false → contains REMAP d = false →
  strip s ≠ EmptyString → strip d ≠ EmptyString →
  is_parameter_assignment (strip s) = false →
  load_mappings [s +:+ REMAP +:+ d] = OK (<[strip s := strip d]> ∅)
  ∧ filter_remap [s +:+ REMAP +:+ d] = [].
Proof.
  intros Hs Hd H1 H2 H3.
  pose proof (split_remap_pair s d Hs Hd) as Hsplit.
  pose proof (split_two_contains _ _ _ Hsplit) as Hc. split.
  - unfold load_mappings. cbn [load_mappings_loop].
    rewrite (step_pair _ _ _ _ Hsplit). unfold entry_of.
    apply String.eqb_neq in H1, H2. by rewrite H1, H2, H3.
  - unfold filter_remap. rewrite filter_cons_False; [done|]. congruence.
Qed.

Lemma loop_only_remaps m argv :
  load_mappings_loop m argv
  = load_mappings_loop m (filter (λ a, contains REMAP a = true) argv).
Proof.
  revert m. induction argv as [|a argv IH]; intros m; [done|].
  destruct (contains REMAP a) eqn:Hc.
  - rewrite filter_cons_True by done. cbn [load_mappings_loop].
    destruct (load_mappings_step m a); [apply IH|done].
  - rewrite filter_cons_False by congruence. cbn [load_mappings_loop].
    rewrite step_without_delimiter by done. apply IH.
Qed.

(** X5. The extractor looks at the remap tokens only: dropping every token
    without the delimiter from the vector changes neither the mapping nor
    the error. *)
Theorem load_mappings_only_remaps argv :
  load_mappings argv = load_mappings (filter (λ a, contains REMAP a = true) argv).
Proof. apply loop_only_remaps. Qed.

End RemapExtras.

(** ** What the flag parser keeps and how it fails *)

Section ScanInvariant.

Variable sys_stderr : cli.stream.
Variable py_int : string → option Z.
Variable py_repr : string → string.

Implicit Types (arg opt : string) (largs rargs rest : list string)
  (values : gmap string pyval) (o : optparse.Option).

Local Abbreviation perror := (cli.ColoredOptionParser_error sys_stderr).
Local Abbreviation scan :=
  (optparse._process_args perror py_int py_repr (cli.parser)).
Local Abbreviation parse :=
  (optparse.parse_args perror py_int py_repr (cli.parser)).

Lemma colored_error_exit msg : ∃ text, perror msg = SystemExit 2 text.
Proof.
  unfold cli.ColoredOptionParser_error. destruct sys_stderr as [[[]|]]; by eexists.
Qed.

Lemma colored_error_scan_exn msg : scan_exn (perror msg).
Proof. destruct (colored_error_exit msg) as [t ->]. right. right. right. by eexists. Qed.

Lemma typed_insert values k x :
  values_typed values →
  (k = "verbosity" ∧ (∃ n, x = PInt n)) ∨ (k = "just_deps" ∧ (∃ b, x = PBool b))
  ∨ (k = "in_order" ∧ x = PBool true) ∨ (k = "output" ∧ ∃ f, x = PStr f) →
  values_typed (<[k := x]> values).
Proof.
  intros (Hd & Hv & Hj & Hi & Ho) Hk. unfold values_typed.
  rewrite dom_insert_L, Hd.
  destruct Hk as [[-> [n ->]]|[[-> [b ->]]|[[-> ->]|[-> [f ->]]]]].
  - split; [set_solver|]. rewrite lookup_insert_eq, !lookup_insert_ne by done. eauto.
  - split; [set_solver|]. rewrite lookup_insert_eq, !lookup_insert_ne by done. eauto 6.
  - split; [set_solver|]. rewrite lookup_insert_eq, !lookup_insert_ne by done. eauto 6.
  - split; [set_solver|]. rewrite lookup_insert_eq, !lookup_insert_ne by done. eauto 8.
Qed.

Lemma parser_options_typed :
  Forall (λ o, ∀ opt (value : option string) values,
            (is_Some value ↔ optparse.takes_value o = true) →
            values_typed values →
            process_post (optparse.process py_int py_repr o opt value values))
    (optparse.option_list cli.parser).
Proof.
  change (optparse.option_list cli.parser) with
    [optparse.new_option ["-h"; "--help"] optparse.help None None PNone;
     optparse.new_option ["-o"] optparse.store None (Some "output") PNone;
     optparse.new_option ["--deps"] optparse.store_true None (Some "just_deps") PNone;
     optparse.new_option ["--inorder"; "-i"] optparse.store_true None
       (Some "in_order") PNone;
     optparse.new_option ["-q"] optparse.store_const None (Some "verbosity") (PInt 0);
     optparse.new_option ["-v"] optparse.count None (Some "verbosity") PNone;
     optparse.new_option ["--verbosity"] optparse.store (Some optparse.t_int)
       (Some "verbosity") PNone].
  repeat apply Forall_cons_2; [..|apply Forall_nil_2];
    intros opt value values Hval Htyped.
  - destruct value; cbn; right; right; by left.
  - destruct value as [f|]; [|by destruct Hval as [_ H]; destruct (H eq_refl) as [? [=]]].
    cbn. apply typed_insert; eauto 10.
  - destruct value as [f|]; [by destruct Hval as [H _]; specialize (H ltac:(eauto))|].
    cbn. apply typed_insert; eauto 10.
  - destruct value as [f|]; [by destruct Hval as [H _]; specialize (H ltac:(eauto))|].
    cbn. apply typed_insert; eauto 10.
  - destruct value as [f|]; [by destruct Hval as [H _]; specialize (H ltac:(eauto))|].
    cbn. apply typed_insert; eauto 10.
  - destruct value as [f|]; [by destruct Hval as [H _]; specialize (H ltac:(eauto))|].
    pose proof Htyped as (Hd & [n Hv] & Hrest).
    unfold optparse.process, optparse.take_action. cbn. rewrite Hv. cbn.
    apply typed_insert; [done|eauto 10].
  - destruct value as [f|]; [|by destruct Hval as [_ H]; destruct (H eq_refl) as [? [=]]].
    unfold optparse.process. cbn. destruct (py_int f) as [n|]; cbn.
    + apply typed_insert; eauto 10.
    + right. left. by eexists.
Qed.

Lemma match_abbrev_post s (words : list string) :
  match optparse._match_abbrev s words with
  | OK w => w ∈ words
  | Raise e => ∃ msg, e = BadOptionError msg
  end.
Proof.
  unfold optparse._match_abbrev. case_bool_decide as Hin; [done|].
  destruct (filter _ words) as [|w [|w' l]] eqn:Hf; [by eexists| |by eexists].
  assert (w ∈ filter (λ w, String.prefix s w = true) words) as Hw
    by (rewrite Hf; apply elem_of_cons; by left).
  by apply list_elem_of_filter in Hw as [_ ?].
Qed.

Lemma process_typed o opt (value : option string) values :
  o ∈ optparse.option_list cli.parser →
  (is_Some value ↔ optparse.takes_value o = true) →
  values_typed values →
  process_post (optparse.process py_int py_repr o opt value values).
Proof.
  intros Hin. pose proof parser_options_typed as H.
  rewrite Forall_forall in H. by apply H.
Qed.

Lemma handler_of_process o opt (value : option string) values rest took :
  o ∈ optparse.option_list cli.parser →
  (is_Some value ↔ optparse.takes_value o = true) →
  values_typed values → (took = true → rest ≠ []) →
  handler_post rest
    (values' ← optparse.process py_int py_repr o opt value values;
     OK (values', took)).
Proof.
  intros Hin Hval Htyped Htook.
  pose proof (process_typed o opt value values Hin Hval Htyped) as Hp.
  by destruct (optparse.process py_int py_repr o opt value values).
Qed.

Lemma long_opt_post arg rest values :
  values_typed values →
  handler_post rest
    (optparse._process_long_opt perror py_int py_repr cli.parser arg rest values).
Proof.
  intros Htyped. unfold optparse._process_long_opt.
  set (oe := if contains "=" arg then _ else _). destruct oe as [opt0 explicit].
  pose proof (match_abbrev_post opt0 (optparse.long_opt_names cli.parser)) as Hm.
  destruct (optparse._match_abbrev opt0 _) as [opt|e]; cbn [mbind result_bind].
  2:{ destruct Hm as [msg ->]. left. by eexists. }
  destruct (optparse._long_opt cli.parser opt) as [o|] eqn:Hfind.
  2:{ left. by eexists. }
  apply find_some in Hfind as [Hin%list_elem_of_In _].
  destruct (optparse.takes_value o) eqn:Ht.
  - destruct explicit as [v|]; [|destruct rest as [|v rest']].
    + apply handler_of_process; [done|rewrite Ht; split; eauto|done|done].
    + apply colored_error_scan_exn.
    + apply handler_of_process; [done|rewrite Ht; split; eauto|done|done].
  - destruct explicit as [v|]; [apply colored_error_scan_exn|].
    apply handler_of_process; [done|rewrite Ht; split; [by intros []|done]|done|done].
Qed.

Lemma short_opts_post chars rest values :
  values_typed values →
  handler_post rest
    (optparse._process_short_opts perror py_int py_repr cli.parser chars rest values).
Proof.
  revert values. induction chars as [|ch tail IH]; intros values Htyped; [done|].
  cbn [optparse._process_short_opts].
  destruct (optparse._short_opt cli.parser _) as [o|] eqn:Hfind.
  2:{ left. by eexists. }
  apply find_some in Hfind as [Hin%list_elem_of_In _].
  destruct (optparse.takes_value o) eqn:Ht.
  - destruct tail as [|c t]; [destruct rest as [|v rest']|].
    + apply colored_error_scan_exn.
    + apply handler_of_process; [done|rewrite Ht; split; eauto|done|done].
    + apply handler_of_process; [done|rewrite Ht; split; eauto|done|done].
  - assert (is_Some (@None string) ↔ optparse.takes_value o = true) as Hval
      by (rewrite Ht; split; [by intros []|done]).
    pose proof (process_typed o (String "-" (String ch EmptyString)) None values
                  Hin Hval Htyped) as Hp.
    destruct (optparse.process py_int py_repr o _ None values) as [values'|e];
      [by apply IH|done].
Qed.

Lemma scan_post_weaken largs rest rargs r :
  scan_post largs rest r → rest ⊆ rargs → scan_post largs rargs r.
Proof.
  destruct r as [[[largs' rargs'] values']|e]; [|done].
  intros (Ht & l & Hl & Hsub) Hrest. split; [done|]. exists l. split; [done|].
  by etrans.
Qed.

Lemma scan_typed n rargs largs values :
  (length rargs ≤ n)%nat → values_typed values →
  scan_post largs rargs (scan largs rargs values).
Proof.
  revert rargs largs values. induction n as [|n IH]; intros rargs largs values Hn Ht.
  { destruct rargs; [|simpl in Hn; lia]. split; [done|]. exists []. split; [done|].
    done. }
  destruct rargs as [|arg rest].
  { split; [done|]. by exists []. }
  simpl in Hn. cbn [optparse._process_args].
  assert (rest ⊆ arg :: rest) as Hsub by (intros x ?; apply elem_of_cons; by right).
  destruct (arg =? "--")%string.
  { split; [done|]. by exists rest. }
  destruct (String.prefix "--" arg).
  { pose proof (long_opt_post arg rest values Ht) as Hh.
    destruct (optparse._process_long_opt _ _ _ _ _ _ _) as [[values' took]|e];
      [|done].
    destruct Hh as [Ht' Htook]. cbn [mbind result_bind].
    destruct took; [destruct rest as [|x rest']|].
    - by destruct Htook.
    - eapply scan_post_weaken; [apply (IH rest'); [simpl in Hn; lia|done]|].
      intros y ?. apply elem_of_cons. right. apply elem_of_cons. by right.
    - eapply scan_post_weaken; [apply (IH rest); [lia|done]|done]. }
  destruct (String.prefix "-" arg && (1 <? String.length arg)%nat).
  { pose proof (short_opts_post (str_drop 1 arg) rest values Ht) as Hh.
    destruct (optparse._process_short_opts _ _ _ _ _ _ _) as [[values' took]|e];
      [|done].
    destruct Hh as [Ht' Htook]. cbn [mbind result_bind].
    destruct took; [destruct rest as [|x rest']|].
    - by destruct Htook.
    - eapply scan_post_weaken; [apply (IH rest'); [simpl in Hn; lia|done]|].
      intros y ?. apply elem_of_cons. right. apply elem_of_cons. by right.
    - eapply scan_post_weaken; [apply (IH rest); [lia|done]|done]. }
  pose proof (IH rest (largs ++ [arg]) values ltac:(lia) Ht) as Hrec.
  destruct (scan (largs ++ [arg]) rest values) as [[[largs' rargs'] values']|e];
    [|done].
  destruct Hrec as (Ht' & l & Hl & Hl'). split; [done|].
  exists (arg :: l). split; [by rewrite Hl, <- app_assoc|].
  intros y [->|Hy]%elem_of_cons; apply elem_of_cons; [by left|right; by apply Hl'].
Qed.

Lemma parser_defaults_typed : values_typed (optparse.defaults cli.parser).
Proof.
  rewrite parser_defaults. unfold values_typed. repeat split; eauto.
Qed.

(** The flag parser on any vector: typed values and positional arguments
    that are arguments of the vector, or an exit with status 0 or 2. *)
Lemma parse_typed (args : list string) :
  match parse args with
  | OK (values, pos_args) => values_typed values ∧ pos_args ⊆ args
  | Raise e => parser_exit e
  end.
Proof.
  unfold optparse.parse_args.
  pose proof (scan_typed (length args) args [] (optparse.defaults cli.parser)
                ltac:(done) parser_defaults_typed) as H.
  destruct (scan [] args _) as [[[largs rargs] values]|e].
  - destruct H as (Ht & l & -> & Hl). done.
  - destruct H as [[msg ->]|[[msg ->]|H]];
      [| |destruct H as [->|[msg ->]]; [by left|right; by eexists]].
    + destruct (colored_error_exit msg) as [t ->]. right. by eexists.
    + destruct (colored_error_exit msg) as [t ->]. right. by eexists.
Qed.

End ScanInvariant.

(** ** Argument resolution, beyond the claims *)

Section ResolverExtras.

Variable sys_stderr : cli.stream.
Variable py_int : string → option Z.
Variable py_repr : string → string.

Implicit Types (argv rest pos_args : list string) (p f tok : string)
  (flags : list vflag) (values options : gmap string pyval).

Local Abbreviation perror := (cli.ColoredOptionParser_error sys_stderr).
Local Abbreviation scan :=
  (optparse._process_args perror py_int py_repr (cli.parser)).
Local Abbreviation parse :=
  (optparse.parse_args perror py_int py_repr (cli.parser)).
Local Abbreviation process_args := (cli.process_args sys_stderr py_int py_repr).

Lemma options_dict_eq values out jd v (m : gmap string string) :
  dom values = option_keys →
  values !! "output" = Some out → values !! "just_deps" = Some (PBool jd) →
  values !! "verbosity" = Some (PInt v) →
  <["mappings" := PDict m]> (<["in_order" := PBool true]> values)
  = options_dict out jd v m.
Proof.
  intros Hd Ho Hj Hv. apply map_eq. intros k. unfold options_dict.
  destruct (decide (k = "output")) as [->|]; [by simplify_map_eq|].
  destruct (decide (k = "just_deps")) as [->|]; [by simplify_map_eq|].
  destruct (decide (k = "in_order")) as [->|]; [by simplify_map_eq|].
  destruct (decide (k = "verbosity")) as [->|]; [by simplify_map_eq|].
  destruct (decide (k = "mappings")) as [->|]; [by simplify_map_eq|].
  rewrite !lookup_insert_ne, lookup_empty by done.
  apply not_elem_of_dom. rewrite Hd. unfold option_keys.
  rewrite !elem_of_union, !elem_of_singleton. tauto.
Qed.

(** The four ways a call of [process_args] goes. *)
Lemma process_args_cases argv require_input :
  (∃ b, b ∈ argv ∧ rejected b = true
        ∧ cli.load_mappings argv = Raise (cli.invalid_remapping b)
        ∧ process_args argv require_input = Raise (cli.invalid_remapping b))
  ∨ (∃ m e, cli.load_mappings argv = OK m
            ∧ parse (cli.filter_remap argv) = Raise e ∧ parser_exit e
            ∧ process_args argv require_input = Raise e)
  ∨ (∃ m options pos_args,
       cli.load_mappings argv = OK m
       ∧ parse (cli.filter_remap argv) = OK (options, pos_args)
       ∧ options !! "in_order" = Some (PBool true)
       ∧ process_args argv require_input = Raise TypeError)
  ∨ (∃ m options pos_args,
       cli.load_mappings argv = OK m
       ∧ parse (cli.filter_remap argv) = OK (options, pos_args)
       ∧ values_typed options ∧ pos_args ⊆ cli.filter_remap argv
       ∧ options !! "in_order" = Some PNone
       ∧ process_args argv require_input
         = (input ← cli.input_argument sys_stderr pos_args require_input;
            OK (<["mappings" := PDict m]> (<["in_order" := PBool true]> options),
                input))).
Proof.
  destruct (cli.load_mappings argv) as [m|e] eqn:Hl.
  2:{ left. apply load_mappings_raises in Hl as H. destruct H as (b & Hb & Hr & ->).
      exists b. repeat (split; [done|]). by apply process_args_aborts. }
  right.
  pose proof (parse_typed sys_stderr py_int py_repr (cli.filter_remap argv)) as Hp.
  destruct (parse (cli.filter_remap argv)) as [[options pos_args]|e] eqn:Hparse.
  2:{ left. exists m, e. repeat (split; [done|]).
      unfold cli.process_args, cli.substitution_args. rewrite Hl.
      cbn [mbind result_bind]. by rewrite Hparse. }
  right. destruct Hp as [Ht Hsub].
  pose proof Ht as (_ & _ & _ & [Hi|Hi] & _).
  - right. exists m, options, pos_args. repeat (split; [done|]).
    by rewrite (process_args_after_parse _ _ _ _ _ _ _ _ _ Hl Hparse Hi).
  - left. exists m, options, pos_args. repeat (split; [done|]).
    by rewrite (process_args_after_parse _ _ _ _ _ _ _ _ _ Hl Hparse Hi).
Qed.

(** X6. Whatever the vector, the options a successful resolution returns
    are a dictionary with exactly the keys [output], [just_deps],
    [in_order], [verbosity] and [mappings]: the output is [None] or a
    string, [in_order] is [True], the verbosity is an integer, and the
    mappings are those the extractor returns for the vector. *)
Theorem resolved_options_shape argv require_input opts input :
  process_args argv require_input = OK (opts, input) →
  ∃ out jd v m,
    opts = options_dict out jd v m ∧ cli.load_mappings argv = OK m
    ∧ (out = PNone ∨ ∃ f, out = PStr f).
Proof.
  intros H.
  destruct (process_args_cases argv require_input)
    as [(b & _ & _ & _ & Hr)|[(m & e & _ & _ & _ & Hr)|[(m & o & p & _ & _ & _ & Hr)
        |(m & options & pos_args & Hl & _ & Ht & _ & _ & Hr)]]]; try congruence.
  rewrite Hr in H.
  destruct (cli.input_argument sys_stderr pos_args require_input) as [i|]; [|done].
  injection H as <- <-.
  destruct Ht as (Hd & [v Hv] & [jd Hj] & _ & Ho).
  destruct Ho as [Ho|[f Ho]].
  - exists PNone, jd, v, m. split; [by apply options_dict_eq|]. split; [done|by left].
  - exists (PStr f), jd, v, m. split; [by apply options_dict_eq|]. split; [done|eauto].
Qed.

(** X7. The input identifier a successful resolution returns is one of the
    arguments of the vector, and not a remap token; it is [None] only when
    input is not required. *)
Theorem resolved_input_is_an_argument argv require_input opts input :
  process_args argv require_input = OK (opts, input) →
  (input = PNone ∧ require_input = false)
  ∨ ∃ p, input = PStr p ∧ p ∈ argv ∧ contains cli.REMAP p = false.
Proof.
  intros H.
  destruct (process_args_cases argv require_input)
    as [(b & _ & _ & _ & Hr)|[(m & e & _ & _ & _ & Hr)|[(m & o & p & _ & _ & _ & Hr)
        |(m & options & pos_args & Hl & _ & _ & Hsub & _ & Hr)]]]; try congruence.
  rewrite Hr in H. unfold cli.input_argument in H.
  case_bool_decide as Hn.
  - destruct require_input; [done|]. injection H as _ <-. by left.
  - destruct pos_args as [|p pos]; [done|]. injection H as _ <-. right.
    exists p. split; [done|].
    assert (p ∈ cli.filter_remap argv) as Hp
      by (apply Hsub, elem_of_cons; by left).
    unfold cli.filter_remap in Hp. by apply list_elem_of_filter in Hp as [? ?].
Qed.

(** X8. Resolution fails in three ways only: with the invalid-remapping
    error of a rejected token of the vector; by leaving through the flag
    parser, with status 0 after the help text or with status 2 after a
    usage error; or with the [TypeError] of the obsolescence notice, when
    flag parsing has set [in_order]. *)
Theorem process_args_exceptions argv require_input e :
  process_args argv require_input = Raise e →
  (∃ b, b ∈ argv ∧ rejected b = true ∧ e = cli.invalid_remapping b)
  ∨ parser_exit e
  ∨ (e = TypeError
     ∧ ∃ options pos_args,
         parse (cli.filter_remap argv) = OK (options, pos_args)
         ∧ options !! "in_order" = Some (PBool true)).
Proof.
  intros H.
  destruct (process_args_cases argv require_input)
    as [(b & Hb & Hrej & _ & Hr)|[(m & e' & _ & _ & He & Hr)
        |[(m & o & p & _ & Hp & Hi & Hr)
        |(m & options & pos_args & Hl & _ & _ & _ & _ & Hr)]]];
    rewrite Hr in H.
  - injection H as <-. left. by exists b.
  - injection H as <-. by right; left.
  - injection H as <-. right. right. split; [done|]. by exists o, p.
  - unfold cli.input_argument in H. case_bool_decide.
    + destruct require_input; [|done]. injection H as <-. right. left.
      destruct (colored_error_exit sys_stderr
                  "expected exactly one input file as argument") as [t ->].
      right. by eexists.
    + by destruct pos_args.
Qed.

Lemma process_args_congruence argv argv' require_input :
  cli.load_mappings argv = cli.load_mappings argv' →
  cli.filter_remap argv = cli.filter_remap argv' →
  process_args argv require_input = process_args argv' require_input.
Proof.
  intros Hl Hf. unfold cli.process_args, cli.substitution_args. rewrite Hl, Hf.
  destruct (cli.load_mappings argv') as [m|e] eqn:E; [done|].
  apply load_mappings_raises in E as (b & _ & _ & ->). done.
Qed.

Lemma regrouped_filters argv :
  filter (λ a, contains cli.REMAP a = true)
    (filter (λ a, contains cli.REMAP a = true) argv)
  = filter (λ a, contains cli.REMAP a = true) argv
  ∧ filter (λ a, contains cli.REMAP a = true) (cli.filter_remap argv) = []
  ∧ cli.filter_remap (filter (λ a, contains cli.REMAP a = true) argv) = []
  ∧ cli.filter_remap (cli.filter_remap argv) = cli.filter_remap argv.
Proof.
  unfold cli.filter_remap.
  induction argv as [|a argv (IH1 & IH2 & IH3 & IH4)]; [done|].
  destruct (contains cli.REMAP a) eqn:Hc.
  - rewrite (filter_cons_True (λ a, contains cli.REMAP a = true)) by done.
    rewrite (filter_cons_False (λ a, contains cli.REMAP a = false)) by congruence.
    rewrite (filter_cons_True (λ a, contains cli.REMAP a = true)) by done.
    rewrite (filter_cons_False (λ a, contains cli.REMAP a = false)) by congruence.
    by rewrite IH1.
  - rewrite (filter_cons_False (λ a, contains cli.REMAP a = true)) by congruence.
    rewrite (filter_cons_True (λ a, contains cli.REMAP a = false)) by done.
    rewrite (filter_cons_False (λ a, contains cli.REMAP a = true)) by congruence.
    rewrite (filter_cons_True (λ a, contains cli.REMAP a = false)) by done.
    by rewrite IH4.
Qed.

(** X9. Remap tokens may stand anywhere in the vector: resolution gives
    the same result, or the same exception, as for the vector with all its
    remap tokens moved to the front, in their order. *)
Theorem remap_tokens_anywhere argv require_input :
  process_args argv require_input
  = process_args (filter (λ a, contains cli.REMAP a = true) argv
                  ++ cli.filter_remap argv) require_input.
Proof.
  destruct (regrouped_filters argv) as (H1 & H2 & H3 & H4).
  apply process_args_congruence.
  - unfold cli.load_mappings.
    rewrite (loop_only_remaps ∅ argv), (loop_only_remaps ∅ (_ ++ _)).
    by rewrite filter_app, H1, H2, app_nil_r.
  - unfold cli.filter_remap at 2. rewrite filter_app.
    fold (cli.filter_remap (filter (λ a, contains cli.REMAP a = true) argv)).
    fold (cli.filter_remap (cli.filter_remap argv)).
    by rewrite H3, H4.
Qed.

Lemma vflag_tokens_without_delimiter flags :
  Forall (vflag_ok py_int) flags →
  Forall (λ a, contains cli.REMAP a = false) (flat_map vflag_tokens flags).
Proof.
  induction 1 as [|fl flags Hf _ IH]; [constructor|].
  cbn [flat_map]. apply Forall_app. split; [|done].
  destruct fl as [| |tok n]; repeat constructor. by destruct Hf.
Qed.

Lemma vflags_prefix flags rest :
  Forall (vflag_ok py_int) flags →
  cli.load_mappings (flat_map vflag_tokens flags ++ rest) = cli.load_mappings rest
  ∧ cli.filter_remap (flat_map vflag_tokens flags ++ rest)
    = flat_map vflag_tokens flags ++ cli.filter_remap rest.
Proof.
  intros Hok. apply vflag_tokens_without_delimiter in Hok.
  destruct (loop_without_delimiter ∅ _ Hok) as [Hl Hf]. split.
  - unfold cli.load_mappings. by rewrite loop_app, Hl.
  - unfold cli.filter_remap in *. by rewrite filter_app, Hf.
Qed.

Lemma scan_vflags_ok flags largs rest :
  Forall (vflag_ok py_int) flags →
  scan largs (flat_map vflag_tokens flags ++ rest) (optparse.defaults cli.parser)
  = scan largs rest
      (<["verbosity" := PInt (foldl vflag_apply 1 flags)]>
         (optparse.defaults cli.parser)).
Proof.
  intros Hok. apply (scan_vflags _ _ _ _ _ _ 1); [done|].
  eapply Forall_impl; [exact Hok|]. by intros [| |tok n]; [| |intros []].
Qed.

Lemma process_args_parse_raises argv require_input m e :
  cli.load_mappings argv = OK m →
  parse (cli.filter_remap argv) = Raise e →
  process_args argv require_input = Raise e.
Proof.
  intros Hl Hp. unfold cli.process_args, cli.substitution_args. rewrite Hl.
  cbn [mbind result_bind]. by rewrite Hp.
Qed.

Lemma parse_of_scan args r :
  optparse._process_args perror py_int py_repr cli.parser [] args
    (optparse.defaults cli.parser) = r →
  parse args
  = match r with
    | OK (largs, rargs, values) => OK (values, largs ++ rargs)
    | Raise (BadOptionError msg) => Raise (perror msg)
    | Raise (OptionValueError msg) => Raise (perror msg)
    | Raise e => Raise e
    end.
Proof. by intros <-. Qed.

Lemma parse_of_scan_error args msg :
  optparse._process_args perror py_int py_repr cli.parser [] args
    (optparse.defaults cli.parser) = Raise (perror msg) →
  parse args = Raise (perror msg).
Proof.
  intros H. unfold optparse.parse_args. rewrite H.
  by destruct (colored_error_exit sys_stderr msg) as [t ->].
Qed.





Lemma vflags_values_typed flags :
  values_typed (<["verbosity" := PInt (foldl vflag_apply 1 flags)]>
                  (optparse.defaults cli.parser)).
Proof. apply typed_insert; [apply parser_defaults_typed|eauto]. Qed.

(** X10. A help flag ends resolution with exit status 0 whatever follows
    it: after any verbosity flags, [-h] or [--help] leaves the process
    before the rest of the vector is looked at by the flag parser. *)
Theorem help_preempts flags rest require_input m :
  Forall (vflag_ok py_int) flags → cli.load_mappings rest = OK m →
  process_args (flat_map vflag_tokens flags ++ "-h" :: rest) require_input
  = Raise (SystemExit 0 "")
  ∧ process_args (flat_map vflag_tokens flags ++ "--help" :: rest) require_input
    = Raise (SystemExit 0 "").
Proof.
  intros Hok Hl. split.
  - destruct (vflags_prefix flags ("-h" :: rest) Hok) as [H1 H2].
    apply (process_args_parse_raises _ _ m); [by rewrite H1|]. rewrite H2.
    by rewrite (parse_of_scan _ _ (scan_vflags_ok flags [] _ Hok)).
  - destruct (vflags_prefix flags ("--help" :: rest) Hok) as [H1 H2].
    apply (process_args_parse_raises _ _ m); [by rewrite H1|]. rewrite H2.
    by rewrite (parse_of_scan _ _ (scan_vflags_ok flags [] _ Hok)).
Qed.

(** X11. An option that needs a value and stands last in the vector is a
    usage error naming the option. *)
Theorem missing_option_value flags require_input :
  Forall (vflag_ok py_int) flags →
  process_args (flat_map vflag_tokens flags ++ ["-o"]) require_input
  = Raise (perror "-o option requires 1 argument")
  ∧ process_args (flat_map vflag_tokens flags ++ ["--verbosity"]) require_input
    = Raise (perror "--verbosity option requires 1 argument").
Proof.
  intros Hok. split.
  - destruct (vflags_prefix flags ["-o"] Hok) as [H1 H2].
    apply (process_args_parse_raises _ _ ∅); [by rewrite H1|]. rewrite H2.
    apply parse_of_scan_error. by rewrite scan_vflags_ok.
  - destruct (vflags_prefix flags ["--verbosity"] Hok) as [H1 H2].
    apply (process_args_parse_raises _ _ ∅); [by rewrite H1|]. rewrite H2.
    apply parse_of_scan_error. by rewrite scan_vflags_ok.
Qed.



Lemma process_args_success argv require_input m values p out jd v :
  cli.load_mappings argv = OK m →
  parse (cli.filter_remap argv) = OK (values, [p]) →
  values_typed values →
  values !! "in_order" = Some PNone → values !! "output" = Some out →
  values !! "just_deps" = Some (PBool jd) → values !! "verbosity" = Some (PInt v) →
  process_args argv require_input = OK (options_dict out jd v m, PStr p).
Proof.
  intros Hl Hp (Hd & _) Hi Ho Hj Hv.
  rewrite (process_args_after_parse _ _ _ _ _ _ _ _ _ Hl Hp Hi).
  cbn. by rewrite (options_dict_eq _ out jd v).
Qed.







(** X16. Options may follow the input identifier: verbosity flags after
    the positional argument act as if they stood before it. *)
Theorem flags_after_input flags1 flags2 p require_input :
  Forall (vflag_ok py_int) flags1 → Forall (vflag_ok py_int) flags2 →
  positional p = true → contains cli.REMAP p = false →
  process_args (flat_map vflag_tokens flags1 ++ p :: flat_map vflag_tokens flags2)
    require_input
  = OK (options_dict PNone false (foldl vflag_apply 1 (flags1 ++ flags2)) ∅, PStr p).
Proof.
  intros Hok1 Hok2 Hp Hc.
  assert (Forall (λ a, contains cli.REMAP a = false)
            (flat_map vflag_tokens flags1 ++ p :: flat_map vflag_tokens flags2))
    as Hnd.
  { apply Forall_app. split; [by apply vflag_tokens_without_delimiter|].
    constructor; [done|by apply vflag_tokens_without_delimiter]. }
  destruct (loop_without_delimiter ∅ _ Hnd) as [H3 H4].
  eapply process_args_success.
  - exact H3.
  - rewrite H4. erewrite parse_of_scan.
    2:{ rewrite scan_vflags_ok, scan_positional by done.
        rewrite <- (app_nil_r (flat_map vflag_tokens flags2)).
        rewrite (scan_vflags _ _ _ _ _ _ (foldl vflag_apply 1 flags1));
          [|apply lookup_insert_eq|].
        - rewrite insert_insert_eq, <- foldl_app. reflexivity.
        - eapply Forall_impl; [exact Hok2|]. by intros [| |tok n]; [| |intros []]. }
    done.
  - apply vflags_values_typed.
  - by rewrite !lookup_insert_ne.
  - by rewrite !lookup_insert_ne.
  - by rewrite !lookup_insert_ne.
  - apply lookup_insert_eq.
Qed.

(** X23. For a vector whose flags parse without the legacy flag and leave
    a number of positional arguments other than one: when input is
    required, resolution is a usage error with exit status 2 and the
    message "expected exactly one input file as argument", in red on an
    interactive standard error stream; when it is not, resolution returns
    the options with [None] for the input identifier, also when several
    positional arguments were given. *)
Theorem positional_count_check argv m options pos_args :
  cli.load_mappings argv = OK m →
  parse (cli.filter_remap argv) = OK (options, pos_args) →
  options !! "in_order" = Some PNone →
  length pos_args ≠ 1%nat →
  process_args argv true
  = Raise (SystemExit 2
             (decorated "91" "" "expected exactly one input file as argument"
                sys_stderr))
  ∧ ∃ out jd v, process_args argv false = OK (options_dict out jd v m, PNone).
Proof.
  intros Hl Hp Hi Hn.
  pose proof (parse_typed sys_stderr py_int py_repr (cli.filter_remap argv)) as Ht.
  rewrite Hp in Ht. destruct Ht as [(Hd & [v Hv] & [jd Hj] & _ & Ho) _].
  rewrite !(process_args_after_parse _ _ _ _ _ _ _ _ _ Hl Hp Hi).
  unfold cli.input_argument. rewrite bool_decide_eq_true_2 by done.
  cbn [truthy mbind result_bind]. split.
  - unfold cli.ColoredOptionParser_error, decorated.
    by destruct sys_stderr as [[[]|]].
  - destruct Ho as [Ho|[f Ho]].
    + exists PNone, jd, v. by rewrite (options_dict_eq _ PNone jd v).
    + exists (PStr f), jd, v. by rewrite (options_dict_eq _ (PStr f) jd v).
Qed.

End ResolverExtras.

(** ** Diagnostics, beyond the claims *)

Section DiagnosticsExtras.

Variable sys_stderr : cli.stream.

Implicit Types (msg alt color : string) (args : list string) (file : cli.stream).

(** X17. The parser's [error] method always leaves with exit status 2; the
    message it hands on is wrapped in the red escapes when the standard
    error stream is interactive and is unchanged otherwise. *)
Theorem parser_error_exits_with_2 msg :
  cli.ColoredOptionParser_error sys_stderr msg
  = SystemExit 2 (decorated "91" "" msg sys_stderr).
Proof.
  unfold cli.ColoredOptionParser_error, decorated.
  by destruct sys_stderr as [[[]|]].
Qed.

(** X18. [message] with a message string and no alt text completes exactly
    when a colour of the table is given and the target stream is
    interactive; the alt text is looked at on the plain branch only. *)
Theorem message_without_alt_text_completes_iff msg args (file : option cli.stream)
    color :
  raises (cli.message sys_stderr (PStr msg) args
            (cli.make_kwargs file None (Some (PStr color)))) = false
  ↔ (color = "red" ∨ color = "yellow")
    ∧ cli.isatty (default sys_stderr file) = Some true.
Proof.
  unfold cli.message, cli.colorize.
  cbn [cli.kw_file cli.kw_alt_text cli.kw_color default from_option id
       cli._ansi_get mbind result_bind].
  set (f := from_option id sys_stderr file).
  destruct (decide (color = "red")) as [->|Hr].
  { change (cli._ansi !! "red") with (Some 91).
    destruct (cli.isatty f) as [[]|]; cbn; split; try done;
      try (by intros [_ [=]]); eauto. }
  destruct (decide (color = "yellow")) as [->|Hy].
  { change (cli._ansi !! "yellow") with (Some 93).
    destruct (cli.isatty f) as [[]|]; cbn; split; try done;
      try (by intros [_ [=]]); eauto. }
  assert (cli._ansi !! color = None) as ->.
  { unfold cli._ansi. by rewrite !lookup_insert_ne, lookup_empty. }
  cbn. split; [done|]. by intros [[?|?] _].
Qed.

(** X19. [warning] and [error] called with a message string, with or
    without a target stream, print the message and the further arguments,
    separated by spaces and ended by a newline: in yellow or red on an
    interactive stream, after ["warning: "] or ["error: "] on any other. *)
Theorem severity_output msg args (file : option cli.stream) :
  cli.warning sys_stderr (PStr msg) args (cli.make_kwargs file None None)
  = OK (cli.print (decorated "93" "warning: " msg (default sys_stderr file)) args)
  ∧ cli.error sys_stderr (PStr msg) args (cli.make_kwargs file None None)
    = OK (cli.print (decorated "91" "error: " msg (default sys_stderr file)) args).
Proof.
  unfold decorated.
  destruct file as [[[[]|]]|]; try (split; reflexivity);
    destruct sys_stderr as [[[]|]]; split; reflexivity.
Qed.

End DiagnosticsExtras.

(** ** The entrypoints, beyond the claims *)

Section EntrypointExtras.

Import xacro.

Variable engine : pyval → gmap string pyval → list string * option exn.
Variable sys_stderr : cli.stream.
Variable py_int : string → option Z.
Variable py_repr : string → string.

Implicit Types (w : world) (chunks : list string) (t : string).

(** X20. When the engine ends with an exception, [process] ends with the
    same exception and does not restore the standard output: [sys.stdout]
    stays bound to the new in-memory sink, which holds what the engine
    wrote before it failed. *)
Theorem process_exception_keeps_redirect input_file_name just_deps xacro_ns
    verbosity mappings chunks e w :
  engine (PStr input_file_name)
    (process_opts just_deps xacro_ns verbosity mappings) = (chunks, Some e) →
  ∃ w' sink,
    process engine input_file_name just_deps xacro_ns verbosity mappings w
    = (Raise e, w')
    ∧ sys_stdout w' = sink ∧ sink ≠ sys_stdout w ∧ (sink ∉ dom (heap w))
    ∧ heap w' = <[sink := StringIO (join "" chunks)
                            (String.length (join "" chunks))]> (heap w).
Proof.
  intros He. set (sink := fresh ({[sys_stdout w]} ∪ dom (heap w))).
  assert (sink ∉ {[sys_stdout w]} ∪ dom (heap w)) as Hfresh by apply is_fresh.
  exists (make_world sink
            (<[sink := StringIO (join "" chunks)
                         (String.length (join "" chunks))]> (heap w))), sink.
  split; [|split; [done|]].
  - unfold process.
    erewrite bind_run by reflexivity.
    erewrite bind_run by reflexivity. fold sink.
    erewrite bind_run by reflexivity.
    unfold process_file_process. rewrite He.
    unfold mbind at 1, M_bind at 1.
    erewrite bind_run.
    2:{ apply (write_all_appends chunks _ sink EmptyString);
          [done|apply lookup_insert_eq]. }
    cbn [heap sys_stdout]. rewrite insert_insert_eq. reflexivity.
  - cbn [heap]. split; [|split; [|done]].
    + intros Heq. apply Hfresh. rewrite Heq. apply elem_of_union_l.
      by apply elem_of_singleton.
    + intros Hin. apply Hfresh. by apply elem_of_union_r.
Qed.



End EntrypointExtras.

(** ** The help formatter *)

Section HelpFormatterFacts.

Variable wrap_kwargs : Type.
Variable _original_wrap : string → Z → wrap_kwargs → result (list string).
Variable base_format_option :
  (string → Z → wrap_kwargs → result (list string)) →
  optparse.Option → result string.

Implicit Types (text a b : string) (width : Z) (kw : wrap_kwargs)
  (acc : list string).

Local Abbreviation wrap_with_newlines :=
  (cli.wrap_with_newlines wrap_kwargs _original_wrap).
Local Abbreviation format_option :=
  (cli.format_option wrap_kwargs _original_wrap base_format_option).

Lemma prefix_nl_cons c s :
  String.prefix cli.NL (String c s) = bool_decide (c = "010"%char).
Proof.
  cbn [String.prefix cli.NL]. rewrite prefix_empty.
  destruct (ascii_dec "010" c) as [<-|]; [done|].
  symmetry. apply bool_decide_eq_false. congruence.
Qed.

Lemma split_nl_app a b :
  contains cli.NL a = false →
  split cli.NL (a +:+ cli.NL +:+ b) = a :: split cli.NL b.
Proof.
  induction a as [|c a IH]; intros Ha.
  { change (EmptyString +:+ cli.NL +:+ b) with (String "010" b).
    unfold split. by rewrite split_from_cons, prefix_nl_cons. }
  rewrite contains_cons in Ha. apply orb_false_iff in Ha as [Hp Ha].
  rewrite str_app_cons. unfold split in *. rewrite split_from_cons.
  rewrite prefix_nl_cons in *. rewrite Hp. by rewrite IH.
Qed.

Lemma wrap_loop_acc width kw acc (paragraphs : list string) :
  cli.wrap_with_newlines_loop wrap_kwargs _original_wrap width kw acc paragraphs
  = (lines ← cli.wrap_with_newlines_loop wrap_kwargs _original_wrap width kw []
               paragraphs;
     OK (acc ++ lines)).
Proof.
  revert acc. induction paragraphs as [|p ps IH]; intros acc.
  { cbn. by rewrite app_nil_r. }
  cbn [cli.wrap_with_newlines_loop].
  destruct (_original_wrap p width kw) as [lines|e]; [|done].
  cbn [mbind result_bind]. rewrite (IH (acc ++ lines)), (IH ([] ++ lines)).
  destruct (cli.wrap_with_newlines_loop _ _ _ _ [] ps) as [r|e]; [|done].
  cbn. by rewrite app_assoc.
Qed.

(** X22. [wrap_with_newlines] keeps the line breaks of the text: a text
    without a newline is wrapped as [textwrap.wrap] wraps it, and the
    lines of a text with a newline are the lines of its first paragraph
    followed by those of the rest; an exception of [textwrap.wrap] on a
    paragraph ends the call. *)
Theorem wrap_with_newlines_by_paragraph a b width kw :
  contains cli.NL a = false →
  wrap_with_newlines a width kw = _original_wrap a width kw
  ∧ wrap_with_newlines (a +:+ cli.NL +:+ b) width kw
    = (first ← _original_wrap a width kw;
       rest ← wrap_with_newlines b width kw;
       OK (first ++ rest)).
Proof.
  intros Ha. unfold cli.wrap_with_newlines. split.
  - rewrite count_zero_split by done. cbn.
    by destruct (_original_wrap a width kw).
  - rewrite split_nl_app by done. cbn [cli.wrap_with_newlines_loop].
    destruct (_original_wrap a width kw) as [first|e]; [|done].
    cbn [mbind result_bind]. by rewrite wrap_loop_acc.
Qed.

(** [format_option] formats with [wrap_with_newlines] in place of
    [textwrap.wrap]. When the base class returns, the binding of
    [textwrap.wrap] is what it was before the call; when the base class
    raises, [wrap_with_newlines] stays bound, and a later call that
    returns keeps it bound. *)
Lemma format_option_binding option option' textwrap_wrap :
  (∀ r, base_format_option wrap_with_newlines option = OK r →
        format_option option textwrap_wrap = (OK r, textwrap_wrap))
  ∧ (∀ e, base_format_option wrap_with_newlines option = Raise e →
          format_option option textwrap_wrap = (Raise e, wrap_with_newlines)
          ∧ ∀ r, base_format_option wrap_with_newlines option' = OK r →
                 format_option option' (format_option option textwrap_wrap).2
                 = (OK r, wrap_with_newlines)).
Proof.
  unfold cli.format_option. split.
  - by intros r ->.
  - intros e ->. split; [done|]. by intros r ->.
Qed.

End HelpFormatterFacts.

(** ** Further examples *)

Lemma later_remap_overrides_witness :
  ∃ m', cli.load_mappings (["foo:=bar"; "x:=y"] ++ "foo := baz" :: ["-q"]) = OK m'
        ∧ m' !! "foo" = Some "baz"
        ∧ ∀ k, k ≠ "foo" →
               m' !! k
               = (<["foo" := "bar"]> (<["x" := "y"]> ∅) : gmap string string) !! k.
Proof.
  apply (later_remap_overrides ["foo:=bar"; "x:=y"] "foo := baz" "foo " " baz"
           (<["foo" := "bar"]> (<["x" := "y"]> ∅)) ["-q"]);
    try reflexivity; try discriminate.
  repeat constructor.
Defined.

Lemma mappings_well_formed_witness :
  "a" ≠ EmptyString ∧ "b c" ≠ EmptyString ∧ strip "a" = "a" ∧ strip "b c" = "b c"
  ∧ cli.is_parameter_assignment "a" = false.
Proof.
  apply (mappings_well_formed [" a := b c "; "_p:=q"]
           (<["a" := "b c"]> ∅) "a" "b c"); reflexivity.
Defined.

Lemma mappings_come_from_tokens_witness :
  ∃ arg s d, arg ∈ [" a := b c "; "_p:=q"] ∧ arg = s +:+ cli.REMAP +:+ d
             ∧ split cli.REMAP arg = [s; d] ∧ "a" = strip s ∧ "b c" = strip d.
Proof.
  apply (mappings_come_from_tokens [" a := b c "; "_p:=q"]
           (<["a" := "b c"]> ∅) "a" "b c"); reflexivity.
Defined.

Lemma remap_token_round_trip_witness :
  cli.load_mappings [" robot " +:+ cli.REMAP +:+ "r2 d2"]
  = OK (<["robot" := "r2 d2"]> ∅)
  ∧ cli.filter_remap [" robot " +:+ cli.REMAP +:+ "r2 d2"] = [].
Proof.
  apply (remap_token_round_trip " robot " "r2 d2");
    try reflexivity; discriminate.
Defined.

Lemma resolved_options_shape_witness :
  ∃ out jd v m,
    options_dict (PStr "out.urdf") false 0 (<["a" := "b"]> ∅)
    = options_dict out jd v m
    ∧ cli.load_mappings ["-q"; "a:=b"; "-o"; "out.urdf"; "in.xacro"] = OK m
    ∧ (out = PNone ∨ ∃ f, out = PStr f).
Proof.
  apply (resolved_options_shape plain_stderr digit_int plain_repr
           ["-q"; "a:=b"; "-o"; "out.urdf"; "in.xacro"] true _ (PStr "in.xacro")).
  reflexivity.
Defined.

Lemma resolved_input_is_an_argument_witness :
  (PStr "in.xacro" = PNone ∧ true = false)
  ∨ ∃ p, PStr "in.xacro" = PStr p ∧ p ∈ ["-q"; "a:=b"; "in.xacro"]
         ∧ contains cli.REMAP p = false.
Proof.
  apply (resolved_input_is_an_argument plain_stderr digit_int plain_repr
           ["-q"; "a:=b"; "in.xacro"] true
           (options_dict PNone false 0 (<["a" := "b"]> ∅)) (PStr "in.xacro")).
  reflexivity.
Defined.

Lemma process_args_exceptions_witness :
  (∃ b, b ∈ ["-q"; "--bogus"] ∧ rejected b = true
        ∧ SystemExit 2 "no such option: --bogus" = cli.invalid_remapping b)
  ∨ parser_exit (SystemExit 2 "no such option: --bogus")
  ∨ (SystemExit 2 "no such option: --bogus" = TypeError
     ∧ ∃ options pos_args,
         optparse.parse_args (cli.ColoredOptionParser_error plain_stderr)
           digit_int plain_repr cli.parser (cli.filter_remap ["-q"; "--bogus"])
         = OK (options, pos_args)
         ∧ options !! "in_order" = Some (PBool true)).
Proof.
  apply (process_args_exceptions plain_stderr digit_int plain_repr
           ["-q"; "--bogus"] true).
  reflexivity.
Defined.

Lemma help_preempts_witness :
  cli.process_args plain_stderr digit_int plain_repr
    (["-v"; "-q"] ++ "-h" :: ["--bogus"; "a:=b"]) true = Raise (SystemExit 0 "")
  ∧ cli.process_args plain_stderr digit_int plain_repr
      (["-v"; "-q"] ++ "--help" :: ["--bogus"; "a:=b"]) true
    = Raise (SystemExit 0 "").
Proof.
  apply (help_preempts plain_stderr digit_int plain_repr [Verbose; Quiet]
           ["--bogus"; "a:=b"] true (<["a" := "b"]> ∅));
    [repeat constructor|reflexivity].
Defined.

Lemma missing_option_value_witness :
  cli.process_args plain_stderr digit_int plain_repr (["-v"] ++ ["-o"]) true
  = Raise (SystemExit 2 "-o option requires 1 argument")
  ∧ cli.process_args plain_stderr digit_int plain_repr
      (["-v"] ++ ["--verbosity"]) true
    = Raise (SystemExit 2 "--verbosity option requires 1 argument").
Proof.
  apply (missing_option_value plain_stderr digit_int plain_repr [Verbose] true).
  repeat constructor.
Defined.





Lemma flags_after_input_witness :
  cli.process_args plain_stderr digit_int plain_repr
    (["-q"] ++ "in.xacro" :: ["-v"; "--verbosity"; "3"; "-v"]) true
  = OK (options_dict PNone false 4 ∅, PStr "in.xacro").
Proof.
  apply (flags_after_input plain_stderr digit_int plain_repr [Quiet]
           [Verbose; Level "3" 3; Verbose] "in.xacro" true);
    try reflexivity; repeat constructor.
Defined.

Lemma message_without_alt_text_completes_iff_witness :
  raises (cli.message plain_stderr (PStr "note") []
            (cli.make_kwargs (Some (cli.make_stream (Some true))) None
               (Some (PStr "yellow")))) = false.
Proof.
  apply (message_without_alt_text_completes_iff plain_stderr "note" []
           (Some (cli.make_stream (Some true))) "yellow").
  split; [by right|reflexivity].
Defined.

Lemma process_exception_keeps_redirect_witness :
  ∃ w' sink,
    xacro.process failing_engine "in.xacro" false true 1 ∅ terminal_world
    = (Raise (RuntimeError "no such file"), w')
    ∧ xacro.sys_stdout w' = sink ∧ sink ≠ xacro.sys_stdout terminal_world
    ∧ (sink ∉ dom (xacro.heap terminal_world))
    ∧ xacro.heap w'
      = <[sink := xacro.StringIO (join "" ["<robot>"])
                    (String.length (join "" ["<robot>"]))]>
          (xacro.heap terminal_world).
Proof.
  apply (process_exception_keeps_redirect failing_engine "in.xacro" false true 1
           ∅ ["<robot>"] (RuntimeError "no such file") terminal_world).
  reflexivity.
Defined.


Lemma wrap_with_newlines_by_paragraph_witness :
  cli.wrap_with_newlines unit line_wrap "usage" 20 () = OK ["usage"]
  ∧ cli.wrap_with_newlines unit line_wrap
      ("first" +:+ cli.NL +:+ ("second" +:+ cli.NL +:+ "third")) 20 ()
    = OK (["first"] ++ ["second"; "third"]).
Proof.
  destruct (wrap_with_newlines_by_paragraph unit line_wrap "usage" "" 20 ()) as [H1 _];
    [reflexivity|].
  destruct (wrap_with_newlines_by_paragraph unit line_wrap "first"
              ("second" +:+ cli.NL +:+ "third") 20 ()) as [_ H2]; [reflexivity|].
  split; [exact H1|]. rewrite H2. reflexivity.
Defined.

Lemma positional_count_check_witness :
  cli.process_args plain_stderr digit_int plain_repr
    ["a.xacro"; "-q"; "b.xacro"] true
  = Raise (SystemExit 2
             (decorated "91" "" "expected exactly one input file as argument"
                plain_stderr))
  ∧ ∃ out jd v,
      cli.process_args plain_stderr digit_int plain_repr
        ["a.xacro"; "-q"; "b.xacro"] false
      = OK (options_dict out jd v ∅, PNone).
Proof.
  apply (positional_count_check plain_stderr digit_int plain_repr
           ["a.xacro"; "-q"; "b.xacro"] ∅
           (<["verbosity" := PInt 0]> (optparse.defaults cli.parser))
           ["a.xacro"; "b.xacro"]); try reflexivity.
  simpl. lia.
Defined.
